(** * PDFQATool: the document question-answering tool of the mortgage crew

    A shallow embedding of [src/PDFQATool.py] (class [PDFQATool], its input
    schema [PDFQAToolInput]) and of the construction done in
    [src/mortgage_crew.py], together with the Python library functions the
    tool calls ([urllib.parse.urlparse], [os.path.splitext],
    [os.path.basename], [str.lower]).

    Conventions.
    - A Python [str] is a Rocq [string]; a character is a code point below
      256.  On such strings [urllib.parse._checknetloc] never raises (no
      Latin-1 code point normalises under NFKC to one of [/?#@:]), so it
      does not appear in the model.
    - Indices are in [Z], as in Python ([find] and [rfind] answer [-1]).
    - [os.path] is [posixpath].
    - Every call that leaves the process (file read, upload, signed URL,
      chat completion) is recorded in a trace of events; the answer of the
      outside world to a call is a function of the trace so far. *)

From Stdlib Require Import String Ascii List ZArith Lia Bool QArith Permutation.
Import ListNotations.

Local Open Scope string_scope.
Local Open Scope Z_scope.

(** ** Python string primitives *)

Module Py.

(** [s[:n]] and [s[n:]] for a natural number [n]. *)
Fixpoint take (n : nat) (s : string) : string :=
  match n, s with
  | S n', String a s' => String a (take n' s')
  | _, _ => EmptyString
  end.

Fixpoint drop (n : nat) (s : string) : string :=
  match n, s with
  | S n', String _ s' => drop n' s'
  | _, _ => s
  end.

(** Slices; every bound the modelled code passes is non-negative. *)
Definition slice_to (s : string) (i : Z) : string := take (Z.to_nat i) s.
Definition slice_from (s : string) (i : Z) : string := drop (Z.to_nat i) s.
Definition slice (s : string) (i j : Z) : string :=
  take (Z.to_nat (j - i)) (drop (Z.to_nat i) s).

Definition len (s : string) : Z := Z.of_nat (String.length s).

(** [s.find(c)] for a one-character [c]: first index, or [-1]. *)
Fixpoint find_from (c : ascii) (s : string) (i : Z) : Z :=
  match s with
  | EmptyString => -1
  | String a s' => if Ascii.eqb a c then i else find_from c s' (i + 1)
  end.

Definition find (c : ascii) (s : string) : Z := find_from c s 0.

(** [s.find(c, start)]. *)
Definition find_at (c : ascii) (s : string) (start : Z) : Z :=
  find_from c (slice_from s start) start.

(** [s.rfind(c)]: last index, or [-1]. *)
Fixpoint rfind_from (c : ascii) (s : string) (i acc : Z) : Z :=
  match s with
  | EmptyString => acc
  | String a s' => rfind_from c s' (i + 1) (if Ascii.eqb a c then i else acc)
  end.

Definition rfind (c : ascii) (s : string) : Z := rfind_from c s 0 (-1).

(** [c in s]. *)
Definition contains (c : ascii) (s : string) : bool := 0 <=? find c s.

(** [s.split(c, 1)] when [c in s]. *)
Definition split1 (c : ascii) (s : string) : string * string :=
  let i := find c s in (slice_to s i, slice_from s (i + 1)).

(** [s.partition(c)]: [(before, found, after)]. *)
Definition partition (c : ascii) (s : string) : string * bool * string :=
  let i := find c s in
  if i <? 0 then (s, false, EmptyString)
  else (slice_to s i, true, slice_from s (i + 1)).

(** [s.rpartition(c)[2]]. *)
Definition rpartition_tail (c : ascii) (s : string) : string :=
  let i := rfind c s in
  if i <? 0 then s else slice_from s (i + 1).

(** [s.lstrip(chars)], the set of characters given as a predicate. *)
Fixpoint lstrip (p : ascii -> bool) (s : string) : string :=
  match s with
  | EmptyString => EmptyString
  | String a s' => if p a then lstrip p s' else s
  end.

(** [s.replace(c, empty)]: every [c] is deleted. *)
Fixpoint remove (c : ascii) (s : string) : string :=
  match s with
  | EmptyString => EmptyString
  | String a s' => if Ascii.eqb a c then remove c s' else String a (remove c s')
  end.

Fixpoint forallb (p : ascii -> bool) (s : string) : bool :=
  match s with
  | EmptyString => true
  | String a s' => p a && forallb p s'
  end.

Definition code (a : ascii) : Z := Z.of_N (N_of_ascii a).

Definition is_upper (a : ascii) : bool := (65 <=? code a) && (code a <=? 90).
Definition is_lower (a : ascii) : bool := (97 <=? code a) && (code a <=? 122).
Definition is_digit (a : ascii) : bool := (48 <=? code a) && (code a <=? 57).

(** [a.isascii() and a.isalpha()]. *)
Definition is_ascii_alpha (a : ascii) : bool := is_upper a || is_lower a.

(** [str.lower] on one code point below 256: the ASCII capitals and the
    Latin-1 capitals U+00C0..U+00DE (U+00D7, the multiplication sign, is
    not a letter). *)
Definition lower_char (a : ascii) : ascii :=
  let n := code a in
  if is_upper a
     || ((192 <=? n) && (n <=? 222) && negb (n =? 215))
  then ascii_of_N (Z.to_N (n + 32))
  else a.

Fixpoint lower (s : string) : string :=
  match s with
  | EmptyString => EmptyString
  | String a s' => String (lower_char a) (lower s')
  end.

(** [sep.join(l)]. *)
Fixpoint join (sep : string) (l : list string) : string :=
  match l with
  | [] => EmptyString
  | [x] => x
  | x :: l' => x ++ sep ++ join sep l'
  end.

(** [x in l] for a tuple, list or set of strings. *)
Definition mem (x : string) (l : list string) : bool :=
  existsb (String.eqb x) l.

(** Structural counterparts of [c in s] and [s.find(c)], used to state
    and prove facts about the two. *)
Fixpoint has (c : ascii) (s : string) : bool :=
  match s with
  | EmptyString => false
  | String a s' => Ascii.eqb a c || has c s'
  end.

Fixpoint index_of (c : ascii) (s : string) : nat :=
  match s with
  | EmptyString => O
  | String a s' => if Ascii.eqb a c then O else S (index_of c s')
  end.

End Py.

(** ** Exceptions and results *)

Inductive exn : Type :=
| ValueError (msg : string)
| IndexError (msg : string)
| ValidationError (msg : string)  (* pydantic: the input schema refused *)
| OSError (detail : string)       (* the operating system refused a file *)
| SDKError (detail : string).     (* the Mistral client raised *)

Definition result (A : Type) : Type := (exn + A)%type.

Definition ok {A} (a : A) : result A := inr a.
Definition raise {A} (e : exn) : result A := inl e.

Definition rbind {A B} (r : result A) (k : A -> result B) : result B :=
  match r with
  | inl e => inl e
  | inr a => k a
  end.

(** ** os.path (posixpath) *)

Module OsPath.

(** The [while] loop of [genericpath._splitext]: walks [filenameIndex]
    up to [dotIndex], answers at the first character that is not a dot.
    [fuel] is the number of iterations left, [dotIndex - filenameIndex]. *)
Fixpoint _splitext_loop (fuel : nat) (p : string)
         (filenameIndex dotIndex : Z) : option (string * string) :=
  match fuel with
  | O => None
  | S fuel' =>
      if filenameIndex <? dotIndex then
        if negb (String.eqb (Py.slice p filenameIndex (filenameIndex + 1)) ".")
        then Some (Py.slice_to p dotIndex, Py.slice_from p dotIndex)
        else _splitext_loop fuel' p (filenameIndex + 1) dotIndex
      else None
  end.

(** [genericpath._splitext(p, '/', None, '.')]. *)
Definition splitext (p : string) : string * string :=
  let sepIndex := Py.rfind "/" p in
  let dotIndex := Py.rfind "." p in
  let whole := (p, Py.slice_to p 0) in
  if sepIndex <? dotIndex then
    let filenameIndex := sepIndex + 1 in
    match _splitext_loop (Z.to_nat (dotIndex - filenameIndex)) p
                         filenameIndex dotIndex with
    | Some r => r
    | None => whole
    end
  else whole.

(** [posixpath.basename]. *)
Definition basename (p : string) : string :=
  let i := Py.rfind "/" p + 1 in
  Py.slice_from p i.

End OsPath.

(** ** urllib.parse (CPython 3.11) *)

Module UrlParse.

Record ParseResult : Type := {
  scheme : string;
  netloc : string;
  path : string;
  params : string;
  query : string;
  fragment : string
}.

Definition uses_params : list string :=
  [EmptyString; "ftp"; "hdl"; "prospero"; "http"; "imap"; "https"; "shttp"; "rtsp";
   "rtspu"; "sip"; "sips"; "mms"; "sftp"; "tel"].

(** [c in scheme_chars]. *)
Definition scheme_char (a : ascii) : bool :=
  Py.is_lower a || Py.is_upper a || Py.is_digit a
  || Ascii.eqb a "+" || Ascii.eqb a "-" || Ascii.eqb a ".".

(** [c in _WHATWG_C0_CONTROL_OR_SPACE]. *)
Definition c0_control_or_space (a : ascii) : bool := Py.code a <=? 32.

(** The three replacements of [_UNSAFE_URL_BYTES_TO_REMOVE]. *)
Definition remove_unsafe (url : string) : string :=
  Py.remove "010" (Py.remove "013" (Py.remove "009" url)).

(** [url[0].isascii() and url[0].isalpha()], read only when [url] is not
    empty. *)
Definition first_is_ascii_alpha (url : string) : bool :=
  match url with
  | EmptyString => false
  | String a _ => Py.is_ascii_alpha a
  end.

(** The scheme step of [urlsplit]: [(scheme, rest)]. *)
Definition split_scheme (url : string) : string * string :=
  let i := Py.find ":" url in
  if (0 <? i) && first_is_ascii_alpha url
     && Py.forallb scheme_char (Py.slice_to url i)
  then (Py.lower (Py.slice_to url i), Py.slice_from url (i + 1))
  else (EmptyString, url).

(** One round of the loop of [_splitnetloc]. *)
Definition netloc_delim (url : string) (start : Z) (c : ascii) (delim : Z) : Z :=
  let wdelim := Py.find_at c url start in
  if 0 <=? wdelim then Z.min delim wdelim else delim.

Definition _splitnetloc (url : string) (start : Z) : string * string :=
  let delim := Py.len url in
  let delim := netloc_delim url start "/" delim in
  let delim := netloc_delim url start "?" delim in
  let delim := netloc_delim url start "#" delim in
  (Py.slice url start delim, Py.slice_from url delim).

Definition starts_with (c : ascii) (s : string) : bool :=
  match s with
  | EmptyString => false
  | String a _ => Ascii.eqb a c
  end.

Definition nonempty (s : string) : bool :=
  match s with EmptyString => false | _ => true end.

Section Netloc.

(** [_check_bracketed_host] calls [ipaddress.ip_address] and a regular
    expression, which are not modelled: the parameter gives the message
    of the [ValueError] it raises on a host name, [None] when it
    returns. *)
Variable bracketed_host_error : string -> option string.

Definition _check_bracketed_host (hostname : string) : result unit :=
  match bracketed_host_error hostname with
  | Some msg => raise (ValueError msg)
  | None => ok tt
  end.

Definition _check_bracketed_netloc (netloc : string) : result unit :=
  let hostname_and_port := Py.rpartition_tail "@" netloc in
  let '(before_bracket, have_open_br, bracketed) :=
    Py.partition "[" hostname_and_port in
  if have_open_br then
    if nonempty before_bracket then raise (ValueError "Invalid IPv6 URL")
    else
      let '(hostname, _, port) := Py.partition "]" bracketed in
      if nonempty port && negb (starts_with ":" port)
      then raise (ValueError "Invalid IPv6 URL")
      else _check_bracketed_host hostname
  else
    let '(hostname, _, port) := Py.partition ":" hostname_and_port in
    _check_bracketed_host hostname.

(** The netloc step of [urlsplit], entered when [url[:2] == '//']. *)
Definition split_netloc (url : string) : result (string * string) :=
  if String.eqb (Py.slice_to url 2) "//" then
    let '(netloc, url) := _splitnetloc url 2 in
    let has_open := Py.contains "[" netloc in
    let has_close := Py.contains "]" netloc in
    if (has_open && negb has_close) || (has_close && negb has_open)
    then raise (ValueError "Invalid IPv6 URL")
    else
      rbind (if has_open && has_close
             then _check_bracketed_netloc netloc else ok tt)
            (fun _ => ok (netloc, url))
  else ok (EmptyString, url).

(** [urlsplit(url)]: [(scheme, netloc, path, query, fragment)]. *)
Definition urlsplit (url : string)
  : result (string * string * string * string * string) :=
  let url := Py.lstrip c0_control_or_space url in
  let url := remove_unsafe url in
  let '(scheme, url) := split_scheme url in
  rbind (split_netloc url) (fun '(netloc, url) =>
    let '(url, fragment) :=
      if Py.contains "#" url then Py.split1 "#" url else (url, EmptyString) in
    let '(url, query) :=
      if Py.contains "?" url then Py.split1 "?" url else (url, EmptyString) in
    ok (scheme, netloc, url, query, fragment)).

Definition _splitparams (url : string) : string * string :=
  if Py.contains "/" url then
    let i := Py.find_at ";" url (Py.rfind "/" url) in
    if i <? 0 then (url, EmptyString)
    else (Py.slice_to url i, Py.slice_from url (i + 1))
  else
    let i := Py.find ";" url in
    (Py.slice_to url i, Py.slice_from url (i + 1)).

Definition urlparse (url : string) : result ParseResult :=
  rbind (urlsplit url) (fun '(scheme, netloc, url, query, fragment) =>
    let '(url, params) :=
      if Py.mem scheme uses_params && Py.contains ";" url
      then _splitparams url else (url, EmptyString) in
    ok {| scheme := scheme; netloc := netloc; path := url;
          params := params; query := query; fragment := fragment |}).

End Netloc.

End UrlParse.

(** ** Data of the tool *)

Definition bytes : Type := list Byte.byte.

(** A content chunk is one of the three dictionaries the tool builds:
    [{"type": "text", "text": _}], [{"type": "document_url",
    "document_url": _}] and [{"type": "image_url", "image_url": _}]. *)
Inductive ContentChunk : Type :=
| TextChunk (text : string)
| DocumentUrlChunk (document_url : string)
| ImageUrlChunk (image_url : string).

Definition chunk_type (c : ContentChunk) : string :=
  match c with
  | TextChunk _ => "text"
  | DocumentUrlChunk _ => "document_url"
  | ImageUrlChunk _ => "image_url"
  end.

(** The reference a document or image chunk carries. *)
Definition chunk_ref (c : ContentChunk) : option string :=
  match c with
  | TextChunk _ => None
  | DocumentUrlChunk u => Some u
  | ImageUrlChunk u => Some u
  end.

Definition is_text (c : ContentChunk) : bool :=
  match c with TextChunk _ => true | _ => false end.

Record Message : Type := { role : string; content : list ContentChunk }.

(** [chat_resp.choices[i].message.content]. *)
Record Choice : Type := { message_content : string }.

Record ChatCompletionResponse : Type := { choices : list Choice }.

(** The SDK client, [Mistral(api_key=...)]. *)
Record Mistral : Type := { api_key : string }.

(** ** Calls that leave the process *)

Inductive event : Type :=
| EvOpenRead (path : string)
    (* open(path, "rb") and f.read() *)
| EvUpload (client : Mistral) (file_name : string) (file_content : bytes)
           (purpose : string)
    (* client.files.upload(file={...}, purpose=...) *)
| EvGetSignedUrl (client : Mistral) (file_id : string)
    (* client.files.get_signed_url(file_id=...) *)
| EvChatComplete (client : Mistral) (model : string)
                 (messages : list Message) (temperature : Q).
    (* client.chat.complete(model=..., messages=..., temperature=...) *)

Definition trace : Type := list event.

Definition is_open_read (e : event) : bool :=
  match e with EvOpenRead _ => true | _ => false end.
Definition is_upload (e : event) : bool :=
  match e with EvUpload _ _ _ _ => true | _ => false end.
Definition is_get_signed_url (e : event) : bool :=
  match e with EvGetSignedUrl _ _ => true | _ => false end.
Definition is_chat_complete (e : event) : bool :=
  match e with EvChatComplete _ _ _ _ => true | _ => false end.

Definition count (p : event -> bool) (t : trace) : nat :=
  List.length (List.filter p t).

(** What the process sees of its environment.  The answer to a call is a
    function of the calls made before it; [inl] is a failure: for the
    three calls of the client, the detail of the error the client raises;
    for the read of a file, the exception that [open] or [read] raises (an
    [OSError] when the file cannot be opened or read, a [ValueError] when
    the path holds a null character). *)
Record World : Type := {
  (** [os.getenv], after [load_dotenv()]. *)
  getenv : string -> option string;
  (** The order in which the set [supported_extensions] is iterated. *)
  supported_iter : list string;
  (** See [UrlParse._check_bracketed_host]. *)
  bracketed_host_error : string -> option string;
  read_file : trace -> string -> exn + bytes;
  files_upload : trace -> Mistral -> string -> bytes -> string -> string + string;
  files_get_signed_url : trace -> Mistral -> string -> string + string;
  chat_complete :
    trace -> Mistral -> string -> list Message -> Q -> string + ChatCompletionResponse
}.

(** ** Computations: a trace threaded through, and an exception *)

Definition M (A : Type) : Type := trace -> trace * result A.

Definition ret {A} (a : A) : M A := fun t => (t, ok a).

Definition throw {A} (e : exn) : M A := fun t => (t, raise e).

Definition lift {A} (r : result A) : M A := fun t => (t, r).

Definition bind {A B} (m : M A) (k : A -> M B) : M B :=
  fun t =>
    match m t with
    | (t', inl e) => (t', inl e)
    | (t', inr a) => k a t'
    end.

(** One call to the outside: the event is recorded, then the world answers;
    a failure [f] is raised as the exception [wrap f]. *)
Definition call {F A} (ev : event) (answer : trace -> F + A)
           (wrap : F -> exn) : M A :=
  fun t =>
    ((t ++ [ev])%list,
     match answer t with
     | inl f => raise (wrap f)
     | inr a => ok a
     end).

Declare Scope tool_scope.
Delimit Scope tool_scope with tool.
Notation "x <- m ;; k" := (bind m (fun x => k))
  (at level 61, m at next level, right associativity) : tool_scope.

(** [for x in xs: acc = body x acc]. *)
Fixpoint for_each {A S} (body : A -> S -> M S) (xs : list A) (acc : S) : M S :=
  match xs with
  | [] => ret acc
  | x :: xs' => bind (body x acc) (for_each body xs')
  end.

(** ** PDFQATool *)

Module PDFQATool.

Local Open Scope tool_scope.

(** [PDFQAToolInput]: the only constraint declared on [paths] is
    [max_items=10]. *)
Record PDFQAToolInput : Type := { paths : list string; question : string }.

Definition max_items : nat := 10.

Definition validate (paths : list string) (question : string)
  : result PDFQAToolInput :=
  if (max_items <? List.length paths)%nat
  then raise (ValidationError "ensure this value has at most 10 items")
  else ok {| paths := paths; question := question |}.

Definition supported_extensions : list string :=
  [".pdf"; ".jpg"; ".jpeg"; ".png"].

Definition no_api_key_msg : string :=
  "MISTRAL_API_KEY must be set in the environment".

(** The f-string of the [ValueError] for a refused extension. *)
Definition unsupported_msg (w : World) (ext : string) : string :=
  "Unsupported file type: " ++ ext ++ ". Supported types: "
    ++ Py.join ", " (supported_iter w).

Definition urlparse (w : World) (path : string) : result UrlParse.ParseResult :=
  UrlParse.urlparse (bracketed_host_error w) path.

(** [parsed.scheme in ("http", "https")]. *)
Definition is_url (parsed : UrlParse.ParseResult) : bool :=
  Py.mem (UrlParse.scheme parsed) ["http"; "https"].

(** The string whose extension is taken: the URL's path component for a
    URL, the whole argument for a local path. *)
Definition ext_source (parsed : UrlParse.ParseResult) (path : string) : string :=
  if is_url parsed then UrlParse.path parsed else path.

Definition extension (parsed : UrlParse.ParseResult) (path : string) : string :=
  Py.lower (snd (OsPath.splitext (ext_source parsed path))).

(** Step 3 for a local file: read, upload, signed URL. *)
Definition upload_local (w : World) (client : Mistral) (path : string) : M string :=
  file_content <-
    call (EvOpenRead path) (fun t => read_file w t path) (fun e => e) ;;
  upload_resp_id <-
    call (EvUpload client (OsPath.basename path) file_content "ocr")
         (fun t => files_upload w t client (OsPath.basename path)
                                file_content "ocr")
         SDKError ;;
  call (EvGetSignedUrl client upload_resp_id)
       (fun t => files_get_signed_url w t client upload_resp_id)
       SDKError.

(** Step 4: the chunk for a reference. *)
Definition chunk_for (ext url_ref : string) : ContentChunk :=
  if String.eqb ext ".pdf" then DocumentUrlChunk url_ref
  else ImageUrlChunk url_ref.

(** The body of [for path in paths]. *)
Definition loop_body (w : World) (client : Mistral) (path : string)
           (content_chunks : list ContentChunk) : M (list ContentChunk) :=
  parsed <- lift (urlparse w path) ;;
  let ext := extension parsed path in
  if negb (Py.mem ext supported_extensions)
  then throw (ValueError (unsupported_msg w ext))
  else
    url_ref <- (if is_url parsed then ret path
                else upload_local w client path) ;;
    ret (content_chunks ++ [chunk_for ext url_ref])%list.

Definition model_name : string := "mistral-medium-latest".

(** [chat_resp.choices[0].message.content]. *)
Definition first_content (chat_resp : ChatCompletionResponse) : result string :=
  match choices chat_resp with
  | [] => raise (IndexError "list index out of range")
  | c :: _ => ok (message_content c)
  end.

Definition _run (w : World) (paths : list string) (question : string) : M string :=
  match getenv w "MISTRAL_API_KEY" with
  | None | Some EmptyString => throw (ValueError no_api_key_msg)
  | Some key =>
      let client := {| api_key := key |} in
      content_chunks <-
        for_each (loop_body w client) paths [TextChunk question] ;;
      let messages := [{| role := "user"; content := content_chunks |}] in
      chat_resp <-
        call (EvChatComplete client model_name messages 0%Q)
             (fun t => chat_complete w t client model_name messages 0%Q)
             SDKError ;;
      lift (first_content chat_resp)
  end.

(** The tool object: the three class attributes.  The class defines no
    [__init__] and no validator; nothing is read at construction. *)
Record t : Type := {
  name : string;
  description : string;
  args_schema : list string -> string -> result PDFQAToolInput
}.

(** [PDFQATool()], as in [MortgageCrew.__init__]. *)
Definition new (w : World) : M t :=
  ret {| name := "PDFQATool";
         description :=
           "Uploads scanned PDFs or images (JPG, JPEG, PNG) to Mistral, retrieves signed HTTPS URLs, "
           ++ "and answers a question across all of them in one go.";
         args_schema := validate |}.

(** Modelled from the spec: the invocation of the tool by the agent
    framework, whose code is not in the repository.  The specification
    (sections 5, 6 and 8) has the cap on the batch enforced at the
    input-validation layer, before the operation, the call failing with a
    validation error: the arguments are validated against [args_schema],
    then [_run] is called. *)
Definition invoke (tool : t) (w : World) (paths : list string)
           (question : string) : M string :=
  input <- lift (args_schema tool paths question) ;;
  _run w (PDFQATool.paths input) (PDFQATool.question input).

End PDFQATool.

(** ** Vocabulary of the statements *)

Module Spec.

Import PDFQATool.
Local Open Scope list_scope.

(** [api_key] is truthy: set and not empty. *)
Definition has_api_key (w : World) : bool :=
  match getenv w "MISTRAL_API_KEY" with
  | None | Some EmptyString => false
  | Some _ => true
  end.

(** The client [_run] builds when the key is there. *)
Definition client_of (w : World) : Mistral :=
  {| api_key := match getenv w "MISTRAL_API_KEY" with
                | Some key => key
                | None => EmptyString
                end |}.

(** The origin of a reference, as [_run] decides it. *)
Definition is_local (w : World) (path : string) : bool :=
  match urlparse w path with
  | inr parsed => negb (is_url parsed)
  | inl _ => false
  end.

(** A reference that parses and whose extension is outside the allow-list. *)
Definition unsupported (w : World) (path : string) : Prop :=
  exists parsed,
    urlparse w path = inr parsed /\
    Py.mem (extension parsed path) supported_extensions = false.

(** The three calls made for a local file. *)
Definition local_events (client : Mistral) (path : string) (file_content : bytes)
           (file_id : string) : trace :=
  [EvOpenRead path;
   EvUpload client (OsPath.basename path) file_content "ocr";
   EvGetSignedUrl client file_id].

(** The request [_run] sends for a question and the chunks of the
    references. *)
Definition chat_messages (question : string) (chunks : list ContentChunk)
  : list Message :=
  [{| role := "user"; content := TextChunk question :: chunks |}].

Definition chat_event (client : Mistral) (question : string)
           (chunks : list ContentChunk) : event :=
  EvChatComplete client model_name (chat_messages question chunks) 0%Q.

(** [resolved w client t path evs c]: from the trace [t], one round of the
    loop on [path] goes through, makes the calls [evs] and appends [c]. *)
Inductive resolved (w : World) (client : Mistral) (t : trace) (path : string)
  : trace -> ContentChunk -> Prop :=
| resolved_remote parsed :
    urlparse w path = inr parsed ->
    is_url parsed = true ->
    Py.mem (extension parsed path) supported_extensions = true ->
    resolved w client t path [] (chunk_for (extension parsed path) path)
| resolved_local parsed file_content file_id url :
    urlparse w path = inr parsed ->
    is_url parsed = false ->
    Py.mem (extension parsed path) supported_extensions = true ->
    read_file w t path = inr file_content ->
    files_upload w (t ++ [EvOpenRead path]) client (OsPath.basename path)
                 file_content "ocr" = inr file_id ->
    files_get_signed_url
      w (t ++ [EvOpenRead path;
               EvUpload client (OsPath.basename path) file_content "ocr"])
      client file_id = inr url ->
    resolved w client t path (local_events client path file_content file_id)
             (chunk_for (extension parsed path) url).

(** The whole loop goes through: the calls and the chunk of each
    reference, in input order. *)
Inductive resolved_all (w : World) (client : Mistral)
  : trace -> list string -> list trace -> list ContentChunk -> Prop :=
| resolved_nil t : resolved_all w client t [] [] []
| resolved_cons t path paths evs c evss cs :
    resolved w client t path evs c ->
    resolved_all w client (t ++ evs) paths evss cs ->
    resolved_all w client t (path :: paths) (evs :: evss) (c :: cs).

(** The calls one occurrence of a reference accounts for: a read, an
    upload and a signed-URL request of its own when it is local, nothing
    when it is a URL. *)
Definition occurrence (w : World) (client : Mistral) (path : string)
           (evs : trace) : Prop :=
  if is_local w path
  then exists file_content file_id,
      evs = local_events client path file_content file_id
  else evs = [].

(** The chunk of a reference: a document chunk for [.pdf], an image chunk
    for the other extensions; it carries the URL itself for a URL. *)
Definition chunk_of (w : World) (path : string) (c : ContentChunk) : Prop :=
  exists parsed url_ref,
    urlparse w path = inr parsed /\
    c = chunk_for (extension parsed path) url_ref /\
    (is_url parsed = true -> url_ref = path).

Definition is_read_of (path : string) (e : event) : bool :=
  match e with
  | EvOpenRead p => String.eqb p path
  | _ => false
  end.

(** What the completion call turns into: the first choice, the provider's
    failure, or the failed access to a first choice that is not there. *)
Definition completion_result (r : string + ChatCompletionResponse) : result string :=
  match r with
  | inl detail => inl (SDKError detail)
  | inr resp =>
      match choices resp with
      | c :: _ => inr (message_content c)
      | [] => inl (IndexError "list index out of range")
      end
  end.

(** *** Three statements that do not hold of the code *)

(** The whole batch is validated before any call is made. *)
Definition batch_validated_before_any_call : Prop :=
  forall w paths question t r,
    has_api_key w = true ->
    Exists (unsupported w) paths ->
    _run w paths question [] = (t, r) ->
    (exists ext, r = inl (ValueError (unsupported_msg w ext))) /\
    count is_upload t = 0%nat /\
    count is_get_signed_url t = 0%nat /\
    count is_chat_complete t = 0%nat.

(** Constructing the tool without the key fails. *)
Definition construction_requires_key : Prop :=
  forall w t0, has_api_key w = false -> exists e, snd (new w t0) = inl e.

(** A completion without choices is reported as a provider error. *)
Definition no_choice_is_provider_error : Prop :=
  forall w paths question t0 evss cs resp,
    has_api_key w = true ->
    resolved_all w (client_of w) t0 paths evss cs ->
    chat_complete w (t0 ++ concat evss) (client_of w) model_name
                  (chat_messages question cs) 0%Q = inr resp ->
    choices resp = [] ->
    exists detail, snd (_run w paths question t0) = inl (SDKError detail).

End Spec.

(** ** A concrete world, for examples *)

Module Demo.

Import Byte.

Definition pdf_bytes : bytes := [x25; x50; x44; x46].

(** The key is set; every file reads as [pdf_bytes]; an upload answers
    the id ["file-" ++ file_name]; the signed URL of an id is under
    [https://signed.example/]; the model answers one choice. *)
Definition world : World := {|
  getenv := fun k => if String.eqb k "MISTRAL_API_KEY" then Some "sk-test" else None;
  supported_iter := [".png"; ".pdf"; ".jpeg"; ".jpg"];
  bracketed_host_error :=
    fun h => if String.eqb h "::1" then None
             else Some ("'" ++ h ++ "' does not appear to be an IPv4 or IPv6 address");
  read_file := fun _ _ => inr pdf_bytes;
  files_upload := fun _ _ file_name _ _ => inr ("file-" ++ file_name);
  files_get_signed_url := fun _ _ file_id => inr ("https://signed.example/" ++ file_id);
  chat_complete := fun _ _ _ _ _ => inr {| choices := [{| message_content := "yes" |}] |}
|}.

(** The same world without the key. *)
Definition world_no_key : World := {|
  getenv := fun _ => None;
  supported_iter := supported_iter world;
  bracketed_host_error := bracketed_host_error world;
  read_file := read_file world;
  files_upload := files_upload world;
  files_get_signed_url := files_get_signed_url world;
  chat_complete := chat_complete world
|}.

(** The same world, but the model answers no choice at all. *)
Definition world_no_choice : World := {|
  getenv := getenv world;
  supported_iter := supported_iter world;
  bracketed_host_error := bracketed_host_error world;
  read_file := read_file world;
  files_upload := files_upload world;
  files_get_signed_url := files_get_signed_url world;
  chat_complete := fun _ _ _ _ _ => inr {| choices := [] |}
|}.

Definition client : Mistral := {| api_key := "sk-test" |}.

(** What [urlparse] answers on a path without scheme, bracket, query,
    fragment or parameter, and on the URL of the examples. *)
Definition parsed_local (path : string) : UrlParse.ParseResult :=
  {| UrlParse.scheme := EmptyString; UrlParse.netloc := EmptyString; UrlParse.path := path;
     UrlParse.params := EmptyString; UrlParse.query := EmptyString; UrlParse.fragment := EmptyString |}.

Definition parsed_b_png : UrlParse.ParseResult :=
  {| UrlParse.scheme := "https"; UrlParse.netloc := "example.com";
     UrlParse.path := "/b.png";
     UrlParse.params := EmptyString; UrlParse.query := EmptyString; UrlParse.fragment := EmptyString |}.

Definition a_pdf_events : trace :=
  Spec.local_events client "./a.pdf" pdf_bytes "file-a.pdf".

Definition a_pdf_chunk : ContentChunk :=
  DocumentUrlChunk "https://signed.example/file-a.pdf".

Definition b_png_chunk : ContentChunk :=
  ImageUrlChunk "https://example.com/b.png".

End Demo.

(** ** Letter case *)

Module Case.



End Case.

(** ** Vocabulary for runs that raise *)

Module Outcome.

Import PDFQATool Spec.
Local Open Scope list_scope.

(** [stopped w client t path evs e]: from the trace [t], the round of the
    loop on [path] makes the calls [evs] and raises [e].  One constructor
    per statement of the loop body that can raise. *)
Inductive stopped (w : World) (client : Mistral) (t : trace) (path : string)
  : trace -> exn -> Prop :=
| stopped_parse e :
    urlparse w path = inl e ->
    stopped w client t path [] e
| stopped_extension parsed :
    urlparse w path = inr parsed ->
    Py.mem (extension parsed path) supported_extensions = false ->
    stopped w client t path []
            (ValueError (unsupported_msg w (extension parsed path)))
| stopped_read parsed e :
    urlparse w path = inr parsed ->
    is_url parsed = false ->
    Py.mem (extension parsed path) supported_extensions = true ->
    read_file w t path = inl e ->
    stopped w client t path [EvOpenRead path] e
| stopped_upload parsed file_content detail :
    urlparse w path = inr parsed ->
    is_url parsed = false ->
    Py.mem (extension parsed path) supported_extensions = true ->
    read_file w t path = inr file_content ->
    files_upload w (t ++ [EvOpenRead path]) client (OsPath.basename path)
                 file_content "ocr" = inl detail ->
    stopped w client t path
            [EvOpenRead path;
             EvUpload client (OsPath.basename path) file_content "ocr"]
            (SDKError detail)
| stopped_signed_url parsed file_content file_id detail :
    urlparse w path = inr parsed ->
    is_url parsed = false ->
    Py.mem (extension parsed path) supported_extensions = true ->
    read_file w t path = inr file_content ->
    files_upload w (t ++ [EvOpenRead path]) client (OsPath.basename path)
                 file_content "ocr" = inr file_id ->
    files_get_signed_url
      w (t ++ [EvOpenRead path;
               EvUpload client (OsPath.basename path) file_content "ocr"])
      client file_id = inl detail ->
    stopped w client t path (local_events client path file_content file_id)
            (SDKError detail).


(** [orderly w client paths h calls]: the calls made after [h] are rounds of
    the loop on local paths of the batch (each a read, the upload of what
    was read, the signed-URL request), possibly cut short after the read or
    after the upload, or ended by one completion call. *)
Inductive orderly (w : World) (client : Mistral) (paths : list string)
  : trace -> trace -> Prop :=
| orderly_nil h : orderly w client paths h []
| orderly_chat h model messages temperature :
    orderly w client paths h [EvChatComplete client model messages temperature]
| orderly_read h path :
    In path paths -> is_local w path = true ->
    orderly w client paths h [EvOpenRead path]
| orderly_upload h path file_content :
    In path paths -> is_local w path = true ->
    read_file w h path = inr file_content ->
    orderly w client paths h
            [EvOpenRead path;
             EvUpload client (OsPath.basename path) file_content "ocr"]
| orderly_round h path file_content file_id rest :
    In path paths -> is_local w path = true ->
    read_file w h path = inr file_content ->
    files_upload w (h ++ [EvOpenRead path]) client (OsPath.basename path)
                 file_content "ocr" = inr file_id ->
    orderly w client paths (h ++ local_events client path file_content file_id)
            rest ->
    orderly w client paths h
            (local_events client path file_content file_id ++ rest).

(** A reference that parses as a URL with a supported extension. *)
Definition supported_url (w : World) (path : string) : Prop :=
  exists parsed,
    urlparse w path = inr parsed /\
    is_url parsed = true /\
    Py.mem (extension parsed path) supported_extensions = true.

End Outcome.

(** ** A world in which calls fail *)

Module Faulty.

(** As [Demo.world], but a path with a null character is refused by
    [open], ["./missing.pdf"] cannot be opened, the upload of a file named
    ["big.pdf"] is refused, and no signed URL is given for the id
    ["file-gone.pdf"]. *)
Definition world : World := {|
  getenv := getenv Demo.world;
  supported_iter := supported_iter Demo.world;
  bracketed_host_error := bracketed_host_error Demo.world;
  read_file :=
    fun _ path =>
      if Py.contains "000" path
      then inl (ValueError "embedded null byte")
      else if String.eqb path "./missing.pdf"
      then inl (OSError "[Errno 2] No such file or directory: './missing.pdf'")
      else inr Demo.pdf_bytes;
  files_upload :=
    fun _ _ file_name _ _ =>
      if String.eqb file_name "big.pdf" then inl "quota exceeded"
      else inr ("file-" ++ file_name);
  files_get_signed_url :=
    fun _ _ file_id =>
      if String.eqb file_id "file-gone.pdf" then inl "file not found"
      else inr ("https://signed.example/" ++ file_id);
  chat_complete := chat_complete Demo.world
|}.

(** The path [./a\0.pdf], with a null character before the extension. *)
Definition nul_path : string := "./a" ++ String "000" ".pdf".

End Faulty.

(** ** mortgage_crew.py *)

Module MortgageCrew.

Local Open Scope list_scope.

(** Exceptions met outside the tool: those of [exn], the two raised by
    subscripting, and whatever the agent framework raises, kept as its
    [str].  All of them derive from [Exception]; what does not
    ([KeyboardInterrupt], [SystemExit]) is not modelled. *)
Inductive error : Type :=
| KeyError (key : string)
| TypeError (msg : string)
| Raised (e : exn)
| Framework (str : string).

Definition cresult (A : Type) : Type := (error + A)%type.

Definition cbind {A B} (r : cresult A) (k : A -> cresult B) : cresult B :=
  match r with
  | inl e => inl e
  | inr a => k a
  end.

(** [str(e)]; the keys met here hold no quote, so [repr(key)] is the key
    between single quotes. *)
Definition str (e : error) : string :=
  match e with
  | KeyError key => ("'" ++ key ++ "'")%string
  | TypeError msg => msg
  | Raised (ValueError msg) => msg
  | Raised (IndexError msg) => msg
  | Raised (ValidationError msg) => msg
  | Raised (OSError detail) => detail
  | Raised (SDKError detail) => detail
  | Framework s => s
  end.

(** A value of an [inputs] dictionary, with its truth value. *)
Inductive PyVal : Type :=
| PyNone
| PyBool (b : bool)
| PyInt (n : Z)
| PyStr (s : string).

Definition truthy (v : PyVal) : bool :=
  match v with
  | PyNone => false
  | PyBool b => b
  | PyInt n => negb (n =? 0)
  | PyStr s => UrlParse.nonempty s
  end.

(** A dictionary with string keys, as the list of its items (the keys are
    distinct). *)
Definition Dict : Type := list (string * PyVal).

(** [d.get(key, default)]. *)
Fixpoint dict_get (d : Dict) (key : string) (default : PyVal) : PyVal :=
  match d with
  | [] => default
  | (k, v) :: d' => if String.eqb k key then v else dict_get d' key default
  end.

(** What [yaml.safe_load] gives. *)
#[warnings="-register-all"] Inductive Yaml : Type :=
| YNull
| YScalar (s : string)
| YSeq (items : list Yaml)
| YMap (entries : list (string * Yaml)).

Fixpoint lookup (entries : list (string * Yaml)) (key : string) : option Yaml :=
  match entries with
  | [] => None
  | (k, v) :: rest => if String.eqb k key then Some v else lookup rest key
  end.

(** [config[key]] for a string [key]. *)
Definition subscript (config : Yaml) (key : string) : cresult Yaml :=
  match config with
  | YMap entries =>
      match lookup entries key with
      | Some v => inr v
      | None => inl (KeyError key)
      end
  | YNull => inl (TypeError "'NoneType' object is not subscriptable")
  | YScalar _ => inl (TypeError "string indices must be integers, not 'str'")
  | YSeq _ => inl (TypeError "list indices must be integers or slices, not str")
  end.

(** [os.environ[key] = value], where [value] is what [os.getenv] returned:
    [os.environ] encodes the value and refuses what is not a [str]. *)
Definition environ_setitem (environ : string -> option string) (key : string)
           (value : option string) : cresult (string -> option string) :=
  match value with
  | None => inl (TypeError "str expected, not NoneType")
  | Some v => inr (fun k => if String.eqb k key then Some v else environ k)
  end.

(** The objects handed to the framework, each as the arguments it is
    built from. *)
Inductive Tool : Type :=
| DirectoryReadTool (directory : string)
| PDFQATool_instance (tool : PDFQATool.t).

Record LLM : Type := { model : string; temperature : Q }.

Inductive OutputModel : Type :=
| DocumentValidationResult
| ApplicantData
| UnderwritingDecision.

Record Agent : Type := {
  agent_config : Yaml;
  agent_verbose : bool;
  agent_tools : list Tool;
  allow_delegation : bool;
  agent_memory : bool;
  agent_llm : LLM
}.

Record Task : Type := {
  task_config : Yaml;
  task_verbose : bool;
  task_agent : Agent;
  task_tools : list Tool;
  output_pydantic : OutputModel;
  human_input : bool
}.

Inductive Process : Type := sequential.

Record Crew : Type := {
  agents : list Agent;
  tasks : list Task;
  process : Process;
  crew_memory : bool;
  crew_verbose : bool
}.

(** What the framework gives back. *)
Record TaskOutput (P : Type) : Type := { pydantic : option P }.
Record CrewOutput (P : Type) : Type := { tasks_output : list (TaskOutput P) }.
Arguments pydantic {P}.
Arguments tasks_output {P}.

(** What the module meets when it is imported and used: the environment
    after [load_dotenv()], the loading of a YAML file, the construction
    of the [LLM] object, and the framework's [Crew.kickoff]. *)
Record Host (P : Type) : Type := {
  environ : string -> option string;
  load_yaml : string -> cresult Yaml;
  llm_error : LLM -> option error;
  crew_kickoff : Crew -> option Dict -> cresult (CrewOutput P)
}.
Arguments environ {P}.
Arguments load_yaml {P}.
Arguments llm_error {P}.
Arguments crew_kickoff {P}.

(** The module's globals once it is imported. *)
Record Globals : Type := {
  agents_config : Yaml;
  tasks_config : Yaml;
  llm : LLM;
  environ_after : string -> option string
}.

Section Module.

Variable P : Type.
Variable host : Host P.

(** The statements of the module body that can raise, in order: the two
    configuration files, the [LLM], the assignment to [os.environ]. *)
Definition import_module : cresult Globals :=
  cbind (load_yaml host "./mortgage_agents.yaml") (fun agents_cfg =>
  cbind (load_yaml host "./mortgage_tasks_lenieant.yaml") (fun tasks_cfg =>
  let the_llm := {| model := "openai/gpt-4o-mini"; temperature := 1 # 10 |} in
  match llm_error host the_llm with
  | Some e => inl e
  | None =>
      cbind (environ_setitem (environ host) "OPENAI_API_KEY"
                             (environ host "OPENAI_API_KEY"))
            (fun env =>
               inr {| agents_config := agents_cfg; tasks_config := tasks_cfg;
                      llm := the_llm; environ_after := env |})
  end)).

(** [MortgageCrew]: the attributes set by [__init__]. *)
Record t : Type := {
  self_agents_config : Yaml;
  self_tasks_config : Yaml;
  DirectorySearchTool : Tool;
  PDFQATool_tool : Tool
}.

Variable g : Globals.

Definition init (w : World) : cresult t :=
  match snd (PDFQATool.new w []) with
  | inl e => inl (Raised e)
  | inr tool =>
      inr {| self_agents_config := agents_config g;
             self_tasks_config := tasks_config g;
             DirectorySearchTool := DirectoryReadTool "./documents";
             PDFQATool_tool := PDFQATool_instance tool |}
  end.

Variable self : t.

Definition tools : list Tool := [DirectorySearchTool self; PDFQATool_tool self].

Definition agent (key : string) (delegation : bool) : cresult Agent :=
  cbind (subscript (self_agents_config self) key) (fun config =>
  inr {| agent_config := config; agent_verbose := true; agent_tools := tools;
         allow_delegation := delegation; agent_memory := true;
         agent_llm := llm g |}).

Definition document_validator : cresult Agent := agent "document_validator" false.
Definition loan_processor : cresult Agent := agent "loan_processor" false.
Definition underwriter : cresult Agent := agent "underwriter" true.

(** The keyword arguments of [Task(...)] are evaluated in the order
    written: the configuration first, then the agent. *)
Definition task (key : string) (the_agent : cresult Agent) (out : OutputModel)
  : cresult Task :=
  cbind (subscript (self_tasks_config self) key) (fun config =>
  cbind the_agent (fun a =>
  inr {| task_config := config; task_verbose := true; task_agent := a;
         task_tools := tools; output_pydantic := out; human_input := false |})).

Definition validate_documents_task : cresult Task :=
  task "validate_documents_task" document_validator DocumentValidationResult.
Definition process_documents_task : cresult Task :=
  task "process_documents_task" loan_processor ApplicantData.
Definition underwriter_task : cresult Task :=
  task "assess_creditworthiness_task" underwriter UnderwritingDecision.

Definition crew : cresult Crew :=
  cbind document_validator (fun a1 =>
  cbind loan_processor (fun a2 =>
  cbind underwriter (fun a3 =>
  cbind validate_documents_task (fun t1 =>
  cbind process_documents_task (fun t2 =>
  cbind underwriter_task (fun t3 =>
  inr {| agents := [a1; a2; a3]; tasks := [t1; t2; t3];
         process := sequential; crew_memory := true;
         crew_verbose := true |})))))).

(** [inputs.get('validation_only', False) if inputs else False], as a
    truth value; [inputs] is [None] or a dictionary. *)
Definition validation_only (inputs : option Dict) : bool :=
  match inputs with
  | None | Some [] => false
  | Some d => truthy (dict_get d "validation_only" (PyBool false))
  end.

(** [kickoff]: the crew it hands to the framework, and what comes back. *)
Definition kickoff_crew (inputs : option Dict) : cresult Crew :=
  if validation_only inputs then
    cbind document_validator (fun a1 =>
    cbind validate_documents_task (fun t1 =>
    inr {| agents := [a1]; tasks := [t1]; process := sequential;
           crew_memory := true; crew_verbose := true |}))
  else crew.

Definition kickoff (inputs : option Dict) : cresult (Crew * CrewOutput P) :=
  cbind (kickoff_crew inputs) (fun c =>
  cbind (crew_kickoff host c inputs) (fun out => inr (c, out))).

End Module.

Arguments import_module {P}.
Arguments kickoff {P}.

End MortgageCrew.

(** ** app.py *)

Module App.

Import MortgageCrew.
Local Open Scope list_scope.

(** What the page does that is seen from outside: a crew is kicked off,
    an error box is shown, a file is written. *)
Inductive ui_event : Type :=
| EvKickoff (crew : Crew) (inputs : Dict)
| EvStError (msg : string)
| EvWrite (path : string) (content : bytes).

(** [l[i]]. *)
Definition item {A} (l : list A) (i : nat) : cresult A :=
  match nth_error l i with
  | Some a => inr a
  | None => inl (Raised (IndexError "list index out of range"))
  end.

Section RunCrew.

Variable P : Type.
Variable host : Host P.

(** The module-level [crew]: [crew_instance.crew()]. *)
Variable crew : Crew.

(** The [try] block of [run_crew]: the outputs it packs, or the exception. *)
Definition run_crew_try (validation_only : bool) : cresult (list (option P)) :=
  cbind (crew_kickoff host crew
                      (Some [("validation_only", PyBool validation_only)]))
        (fun op =>
           if validation_only then
             cbind (item (tasks_output op) 0) (fun o0 => inr [pydantic o0])
           else
             cbind (item (tasks_output op) 0) (fun o0 =>
             cbind (item (tasks_output op) 1) (fun o1 =>
             cbind (item (tasks_output op) 2) (fun o2 =>
             inr [pydantic o0; pydantic o1; pydantic o2])))).

(** [run_crew]: what is seen, and the result ([None] after an exception
    that derives from [Exception], the only ones [error] holds). *)
Definition run_crew (validation_only : bool)
  : list ui_event * option (list (option P)) :=
  let kick := EvKickoff crew [("validation_only", PyBool validation_only)] in
  match run_crew_try validation_only with
  | inr res => ([kick], Some res)
  | inl e => ([kick; EvStError ("Failed to process: " ++ str e)], None)
  end.

End RunCrew.

Arguments run_crew_try {P}.
Arguments run_crew {P}.

(** *** Saving the uploaded files *)

Record UploadedFile : Type := { name : string; buffer : bytes; size : nat }.

Definition ends_with (c : ascii) (s : string) : bool :=
  match Py.slice_from s (Py.len s - 1) with
  | String a EmptyString => Ascii.eqb a c
  | _ => false
  end.

(** [posixpath.join(a, b)]. *)
Definition join (a b : string) : string :=
  if UrlParse.starts_with "/" b then b
  else if negb (UrlParse.nonempty a) || ends_with "/" a then (a ++ b)%string
  else (a ++ "/" ++ b)%string.

Definition unique_filename (timestamp file_name : string) : string :=
  (timestamp ++ "_" ++ file_name)%string.

Definition file_path (timestamp file_name : string) : string :=
  join "./documents" (unique_filename timestamp file_name).

(** The loop over the uploaded files.  [now] is what
    [datetime.now().strftime("%Y%m%d_%H%M%S")] gives at each round (the
    rounds are counted from [i]); [write] tells whether writing a file
    fails.  The result is [file_paths], or the exception of the write that
    failed. *)
Fixpoint save_uploads (now : nat -> string)
         (write : string -> bytes -> option error)
         (i : nat) (files : list UploadedFile)
  : list ui_event * cresult (list (string * string * nat)) :=
  match files with
  | [] => ([], inr [])
  | f :: rest =>
      let timestamp := now i in
      let unique := unique_filename timestamp (name f) in
      let path := join "./documents" unique in
      match write path (buffer f) with
      | Some e => ([EvWrite path (buffer f)], inl e)
      | None =>
          let '(evs, r) := save_uploads now write (S i) rest in
          (EvWrite path (buffer f) :: evs,
           match r with
           | inl e => inl e
           | inr file_paths => inr ((unique, path, size f) :: file_paths)
           end)
      end
  end.

(** The shape of [strftime("%Y%m%d_%H%M%S")]: digits and underscores, at
    least one. *)
Definition timestamp_like (s : string) : bool :=
  UrlParse.nonempty s
  && Py.forallb (fun a => Py.is_digit a || Ascii.eqb a "_") s.

End App.

(** ** A host for the examples of the crew *)

Module DemoCrew.

Import MortgageCrew.
Local Open Scope list_scope.

Definition entry (role : string) : Yaml :=
  YMap [("role", YScalar role); ("goal", YScalar "goal");
        ("backstory", YScalar "backstory")].

Definition agents_yaml : Yaml :=
  YMap [("document_validator", entry "Document Validator");
        ("loan_processor", entry "Loan Processor");
        ("underwriter", entry "Underwriter")].

Definition tasks_yaml : Yaml :=
  YMap [("validate_documents_task", entry "validate");
        ("process_documents_task", entry "process");
        ("assess_creditworthiness_task", entry "assess")].

(** The two configuration files are there; the framework answers one
    output per task of the crew it is given, except that it fails on a
    crew without task. *)
Definition host (openai_key : option string) : Host string := {|
  environ := fun k => if String.eqb k "OPENAI_API_KEY" then openai_key else None;
  load_yaml :=
    fun path =>
      if String.eqb path "./mortgage_agents.yaml" then inr agents_yaml
      else if String.eqb path "./mortgage_tasks_lenieant.yaml" then inr tasks_yaml
      else inl (Raised (OSError "No such file or directory"));
  llm_error := fun _ => None;
  crew_kickoff :=
    fun c _ =>
      match tasks c with
      | [] => inl (Framework "no task to run")
      | ts => inr {| tasks_output :=
                       map (fun _ => {| pydantic := Some "output" |}) ts |}
      end
|}.

Definition globals : Globals := {|
  agents_config := agents_yaml;
  tasks_config := tasks_yaml;
  llm := {| model := "openai/gpt-4o-mini"; temperature := 1 # 10 |};
  environ_after := environ (host (Some "sk-openai"))
|}.

Definition self : t := {|
  self_agents_config := agents_yaml;
  self_tasks_config := tasks_yaml;
  DirectorySearchTool := DirectoryReadTool "./documents";
  PDFQATool_tool :=
    PDFQATool_instance
      match snd (PDFQATool.new Demo.world []) with
      | inr tool => tool
      | inl _ => {| PDFQATool.name := EmptyString;
                    PDFQATool.description := EmptyString;
                    PDFQATool.args_schema := PDFQATool.validate |}
      end
|}.

(** A framework that answers a single task output, whatever the crew. *)
Definition short_host : Host string := {|
  environ := environ (host None);
  load_yaml := load_yaml (host None);
  llm_error := llm_error (host None);
  crew_kickoff := fun _ _ => inr {| tasks_output := [{| pydantic := None |}] |}
|}.

Definition scan : App.UploadedFile :=
  {| App.name := "Pay Slip.March.PDF"; App.buffer := Demo.pdf_bytes; App.size := 4 |}.

End DemoCrew.

(** * Properties *)

(** ** Strings *)

Module PyFacts.

Import Py.

Lemma find_from_spec c s : forall i,
  find_from c s i = if has c s then i + Z.of_nat (index_of c s) else -1.
Proof.
  induction s as [|a s IH]; intros i; simpl; [reflexivity|].
  destruct (Ascii.eqb a c); simpl; [lia|].
  rewrite IH. destruct (has c s); lia.
Qed.

Lemma contains_has c s : contains c s = has c s.
Proof.
  unfold contains, find. rewrite find_from_spec.
  destruct (has c s); [apply Z.leb_le; lia | reflexivity].
Qed.





Lemma take_drop n : forall s, (take n s ++ drop n s)%string = s.
Proof.
  induction n as [|n IH]; intros [|a s]; simpl; try reflexivity.
  now rewrite IH.
Qed.

Lemma length_take n : forall s,
  (n <= String.length s)%nat -> String.length (take n s) = n.
Proof.
  induction n as [|n IH]; intros [|a s] H; simpl in *; try lia.
  now rewrite IH by lia.
Qed.

Lemma drop_app_length h b : drop (String.length h) (h ++ b)%string = b.
Proof. induction h as [|a h IH]; simpl; [now destruct b | exact IH]. Qed.

Lemma drop_drop n : forall m s, drop m (drop n s) = drop (n + m) s.
Proof.
  induction n as [|n IH]; intros m s; simpl.
  - now destruct s.
  - destruct s as [|a s]; simpl; [now destruct m | apply IH].
Qed.

(** [rfind], scanned from an offset, in terms of [rfind] itself. *)
Lemma rfind_from_spec c s : forall i acc,
  rfind_from c s i acc = if rfind c s <? 0 then acc else i + rfind c s.
Proof.
  unfold rfind.
  induction s as [|a s IH]; intros i acc; [reflexivity|].
  cbn [rfind_from]. rewrite (IH (i + 1)), (IH (0 + 1)).
  remember (rfind_from c s 0 (-1)) as r eqn:Hr. clear Hr IH.
  destruct (r <? 0) eqn:E.
  - destruct (Ascii.eqb a c); simpl; [lia | reflexivity].
  - apply Z.ltb_ge in E.
    destruct (0 + 1 + r <? 0) eqn:E'; [apply Z.ltb_lt in E'; lia | lia].
Qed.

Lemma rfind_cons c a s :
  rfind c (String a s) =
  if rfind c s <? 0 then (if Ascii.eqb a c then 0 else -1) else 1 + rfind c s.
Proof. unfold rfind at 1; simpl. apply rfind_from_spec. Qed.

Lemma rfind_bounds c s : -1 <= rfind c s < len s.
Proof.
  unfold len. induction s as [|a s IH]; [cbn; lia|].
  rewrite rfind_cons. cbn [String.length].
  destruct (rfind c s <? 0) eqn:E; [destruct (Ascii.eqb a c)|]; lia.
Qed.

Lemma rfind_app c h b :
  rfind c (h ++ b) = if rfind c b <? 0 then rfind c h else len h + rfind c b.
Proof.
  unfold len. induction h as [|a h IH]; cbn [append String.length].
  - pose proof (rfind_bounds c b).
    destruct (rfind c b <? 0) eqn:E; [apply Z.ltb_lt in E; cbn; lia | lia].
  - rewrite !rfind_cons, IH.
    pose proof (rfind_bounds c b). pose proof (rfind_bounds c h).
    destruct (rfind c b <? 0) eqn:E; [reflexivity|].
    apply Z.ltb_ge in E.
    destruct (Z.of_nat (String.length h) + rfind c b <? 0) eqn:E';
      [apply Z.ltb_lt in E'; lia | lia].
Qed.

End PyFacts.

(** ** os.path *)

Module OsPathFacts.

Import Py PyFacts OsPath.

Lemma slice_from_shift p off d :
  0 <= off -> 0 <= d ->
  slice_from p (off + d) = slice_from (slice_from p off) d.
Proof.
  intros Ho Hd. unfold slice_from.
  now rewrite drop_drop, Z2Nat.inj_add.
Qed.

Lemma slice_shift p off i j :
  0 <= off -> 0 <= i ->
  slice p (off + i) (off + j) = slice (slice_from p off) i j.
Proof.
  intros Ho Hi. unfold slice.
  replace (off + j - (off + i)) with (j - i) by lia.
  f_equal. now apply slice_from_shift.
Qed.

(** The loop sees the same characters in [p] from [off] on as in
    [p[off:]] from the start. *)
Lemma _splitext_loop_shift p off : 0 <= off ->
  forall fuel fi d, 0 <= fi ->
    option_map snd (_splitext_loop fuel p (off + fi) (off + d)) =
    option_map snd (_splitext_loop fuel (slice_from p off) fi d).
Proof.
  intros Ho. induction fuel as [|fuel IH]; intros fi d Hfi; [reflexivity|].
  cbn [_splitext_loop].
  replace (off + fi <? off + d) with (fi <? d)
    by (destruct (fi <? d) eqn:E; symmetry;
        [apply Z.ltb_lt in E; apply Z.ltb_lt | apply Z.ltb_ge in E; apply Z.ltb_ge]; lia).
  destruct (fi <? d) eqn:E; [|reflexivity].
  apply Z.ltb_lt in E.
  replace (off + fi + 1) with (off + (fi + 1)) by lia.
  rewrite slice_shift by lia.
  destruct (negb _).
  - cbn. f_equal. apply slice_from_shift; lia.
  - apply IH; lia.
Qed.

Lemma basename_no_sep p : rfind "/" (basename p) = -1.
Proof.
  unfold basename, slice_from.
  pose proof (rfind_bounds "/" p) as Hb. unfold len in Hb.
  set (n := Z.to_nat (rfind "/" p + 1)).
  pose proof (rfind_app "/" (take n p) (drop n p)) as Ha.
  rewrite take_drop in Ha. unfold len in Ha.
  rewrite length_take in Ha by (subst n; lia).
  pose proof (rfind_bounds "/" (drop n p)) as Hd.
  destruct (rfind "/" (drop n p) <? 0) eqn:E.
  - apply Z.ltb_lt in E. lia.
  - apply Z.ltb_ge in E. subst n. lia.
Qed.

(** The extension depends on the final path component only. *)
Lemma splitext_basename p :
  snd (splitext p) = snd (splitext (basename p)).
Proof.
  unfold splitext at 2. rewrite basename_no_sep.
  unfold splitext, basename.
  pose proof (rfind_bounds "/" p) as Hb. unfold len in Hb.
  set (sep := rfind "/" p) in *.
  assert (Hoff : 0 <= sep + 1) by lia.
  set (b := slice_from p (sep + 1)).
  pose proof (rfind_app "." (take (Z.to_nat (sep + 1)) p) b) as Ha.
  unfold b, slice_from in Ha. rewrite take_drop in Ha. fold (slice_from p (sep + 1)) in Ha.
  fold b in Ha. unfold len in Ha. rewrite length_take in Ha by lia.
  pose proof (rfind_bounds "." (take (Z.to_nat (sep + 1)) p)) as Hh.
  unfold len in Hh. rewrite length_take in Hh by lia.
  pose proof (rfind_bounds "." b) as Hd.
  destruct (rfind "." b <? 0) eqn:E.
  - apply Z.ltb_lt in E.
    replace (sep <? rfind "." p) with false by (symmetry; apply Z.ltb_ge; lia).
    replace (-1 <? rfind "." b) with false by (symmetry; apply Z.ltb_ge; lia).
    reflexivity.
  - apply Z.ltb_ge in E.
    replace (sep <? rfind "." p) with true by (symmetry; apply Z.ltb_lt; lia).
    replace (-1 <? rfind "." b) with true by (symmetry; apply Z.ltb_lt; lia).
    rewrite Ha.
    replace (Z.of_nat (Z.to_nat (sep + 1))) with (sep + 1) by lia.
    replace (sep + 1 + rfind "." b - (sep + 1)) with (rfind "." b - (-1 + 1)) by lia.
    assert (H0 : 0 <= -1 + 1) by lia.
    pose proof (_splitext_loop_shift p (sep + 1) Hoff
                  (Z.to_nat (rfind "." b - (-1 + 1))) (-1 + 1) (rfind "." b) H0) as Hl.
    replace (sep + 1 + (-1 + 1)) with (sep + 1) in Hl by lia.
    fold b in Hl.
    destruct (_splitext_loop _ p _ _) as [[r1 e1]|],
             (_splitext_loop _ b _ _) as [[r2 e2]|];
      cbn in Hl; try discriminate; [now inversion Hl | reflexivity].
Qed.

(** Without a dot in the final component there is no extension. *)
Lemma splitext_no_dot p : rfind "." (basename p) = -1 -> snd (splitext p) = EmptyString.
Proof.
  intros H. rewrite splitext_basename. unfold splitext.
  rewrite basename_no_sep, H. reflexivity.
Qed.

End OsPathFacts.

(** ** urllib.parse *)

Module UrlFacts.

Import Py PyFacts UrlParse.





End UrlFacts.

(** ** The loop of [_run] *)

Module ToolFacts.

Import PDFQATool Spec.
Local Open Scope list_scope.

Ltac unfold_monad :=
  unfold bind, call, lift, throw, ret, raise, ok in *.

Section Loop.

Variable w : World.
Variable client : Mistral.

(** [upload_local], call by call. *)
Lemma upload_local_run t path :
  upload_local w client path t =
  match read_file w t path with
  | inl e => (t ++ [EvOpenRead path], inl e)
  | inr file_content =>
      let up := EvUpload client (OsPath.basename path) file_content "ocr" in
      match files_upload w (t ++ [EvOpenRead path]) client
                         (OsPath.basename path) file_content "ocr" with
      | inl detail => (t ++ [EvOpenRead path; up], inl (SDKError detail))
      | inr file_id =>
          (t ++ local_events client path file_content file_id,
           match files_get_signed_url w (t ++ [EvOpenRead path; up])
                                      client file_id with
           | inl detail => inl (SDKError detail)
           | inr url => inr url
           end)
      end
  end.
Proof.
  unfold upload_local, local_events. unfold_monad.
  destruct (read_file w t path) as [d|file_content]; [reflexivity|].
  cbn zeta.
  destruct (files_upload _ _ _ _ _ _) as [d|file_id];
    rewrite <- !app_assoc; reflexivity.
Qed.

(** One round of the loop, case by case. *)
Lemma loop_body_run path acc t :
  loop_body w client path acc t =
  match urlparse w path with
  | inl e => (t, inl e)
  | inr parsed =>
      let ext := extension parsed path in
      if negb (Py.mem ext supported_extensions)
      then (t, inl (ValueError (unsupported_msg w ext)))
      else if is_url parsed
           then (t, inr (acc ++ [chunk_for ext path]))
           else match upload_local w client path t with
                | (t', inl e) => (t', inl e)
                | (t', inr url) => (t', inr (acc ++ [chunk_for ext url]))
                end
  end.
Proof.
  unfold loop_body. unfold_monad.
  destruct (urlparse w path) as [e|parsed]; [reflexivity|].
  cbn zeta. destruct (negb _); [reflexivity|].
  destruct (is_url parsed); [reflexivity|].
  destruct (upload_local w client path t) as [t' [e|url]]; reflexivity.
Qed.

Lemma resolved_loop_body t path evs c acc :
  resolved w client t path evs c ->
  loop_body w client path acc t = (t ++ evs, inr (acc ++ [c])).
Proof.
  intros H. rewrite loop_body_run.
  destruct H as [parsed Hp Hu Hm | parsed fc fid url Hp Hu Hm Hr Hup Hs];
    rewrite Hp; cbn zeta; rewrite Hm, Hu; cbn [negb].
  - now rewrite app_nil_r.
  - rewrite upload_local_run, Hr. cbn zeta. rewrite Hup, Hs. reflexivity.
Qed.

Lemma loop_body_resolved t path acc t' acc' :
  loop_body w client path acc t = (t', inr acc') ->
  exists evs c,
    resolved w client t path evs c /\ t' = t ++ evs /\ acc' = acc ++ [c].
Proof.
  rewrite loop_body_run.
  destruct (urlparse w path) as [e|parsed] eqn:Hp; [discriminate|].
  cbn zeta.
  destruct (Py.mem _ supported_extensions) eqn:Hm; cbn [negb]; [|discriminate].
  destruct (is_url parsed) eqn:Hu.
  - intros H; inversion H; subst; clear H.
    exists [], (chunk_for (extension parsed path) path).
    rewrite app_nil_r. repeat split.
    now apply resolved_remote.
  - rewrite upload_local_run.
    destruct (read_file w t path) as [d|fc] eqn:Hr; [discriminate|].
    cbn zeta.
    destruct (files_upload _ _ _ _ _ _) as [d|fid] eqn:Hup; [discriminate|].
    destruct (files_get_signed_url _ _ _ _) as [d|url] eqn:Hs; [discriminate|].
    intros H; inversion H; subst; clear H.
    exists (local_events client path fc fid),
           (chunk_for (extension parsed path) url).
    repeat split.
    now apply resolved_local with (parsed := parsed).
Qed.

Lemma resolved_all_for_each t paths evss cs :
  resolved_all w client t paths evss cs ->
  forall acc,
    for_each (loop_body w client) paths acc t =
    (t ++ concat evss, inr (acc ++ cs)).
Proof.
  induction 1 as [t | t path paths evs c evss cs Hr Hall IH]; intros acc.
  - cbn. now rewrite !app_nil_r.
  - cbn [for_each concat]. unfold bind.
    rewrite (resolved_loop_body _ _ _ _ acc Hr), IH.
    now rewrite <- !app_assoc.
Qed.

Lemma for_each_resolved_all paths : forall t acc t' chunks,
  for_each (loop_body w client) paths acc t = (t', inr chunks) ->
  exists evss cs,
    resolved_all w client t paths evss cs /\
    t' = t ++ concat evss /\ chunks = acc ++ cs.
Proof.
  induction paths as [|path paths IH]; intros t acc t' chunks H.
  - cbn in H. inversion H; subst; clear H.
    exists [], []. cbn. rewrite !app_nil_r. repeat split. constructor.
  - cbn [for_each] in H. unfold bind in H.
    destruct (loop_body w client path acc t) as [t1 [e|acc1]] eqn:Hb;
      [discriminate|].
    apply loop_body_resolved in Hb as (evs & c & Hr & -> & ->).
    apply IH in H as (evss & cs & Hall & -> & ->).
    exists (evs :: evss), (c :: cs). cbn [concat].
    rewrite <- !app_assoc. repeat split.
    now apply resolved_cons.
Qed.

(** The loop stops at the first round that raises. *)
Lemma for_each_app pre : forall rest acc t,
  for_each (loop_body w client) (pre ++ rest) acc t =
  match for_each (loop_body w client) pre acc t with
  | (t', inl e) => (t', inl e)
  | (t', inr acc') => for_each (loop_body w client) rest acc' t'
  end.
Proof.
  induction pre as [|path pre IH]; intros rest acc t; [reflexivity|].
  cbn [for_each app]. unfold bind.
  destruct (loop_body w client path acc t) as [t1 [e|acc1]]; [reflexivity|].
  apply IH.
Qed.

(** *** What a loop that went through has done *)

Lemma resolved_occurrence t path evs c :
  resolved w client t path evs c -> occurrence w client path evs.
Proof.
  unfold occurrence, is_local.
  intros [parsed Hp Hu Hm | parsed fc fid url Hp Hu Hm Hr Hup Hs];
    rewrite Hp, Hu; cbn [negb]; eauto.
Qed.

Lemma resolved_chunk_of t path evs c :
  resolved w client t path evs c -> chunk_of w path c.
Proof.
  intros [parsed Hp Hu Hm | parsed fc fid url Hp Hu Hm Hr Hup Hs].
  - exists parsed, path. auto.
  - exists parsed, url. repeat split; auto. congruence.
Qed.

Lemma chunk_for_not_text ext url_ref : is_text (chunk_for ext url_ref) = false.
Proof. unfold chunk_for. now destruct (String.eqb ext ".pdf"). Qed.

Lemma resolved_all_shape t paths evss cs :
  resolved_all w client t paths evss cs ->
  Forall2 (occurrence w client) paths evss /\
  Forall2 (chunk_of w) paths cs /\
  Forall (fun c => is_text c = false) cs.
Proof.
  induction 1 as [t | t path paths evs c evss cs Hr Hall (IH1 & IH2 & IH3)].
  - repeat split; constructor.
  - repeat split; constructor; eauto using resolved_occurrence, resolved_chunk_of.
    destruct Hr; apply chunk_for_not_text.
Qed.

(** *** Counting calls *)

Lemma count_app p (a b : trace) : count p (a ++ b) = (count p a + count p b)%nat.
Proof. unfold count. now rewrite filter_app, length_app. Qed.

Lemma count_none p (t : trace) :
  Forall (fun e => p e = false) t -> count p t = 0%nat.
Proof.
  unfold count. induction 1 as [|e t He _ IH]; cbn; [reflexivity|].
  now rewrite He.
Qed.

Lemma occurrence_no_chat path evs :
  occurrence w client path evs ->
  Forall (fun e => is_chat_complete e = false) evs.
Proof.
  unfold occurrence. destruct (is_local w path).
  - intros (fc & fid & ->). repeat constructor.
  - intros ->. constructor.
Qed.

Lemma occurrences_no_chat paths evss :
  Forall2 (occurrence w client) paths evss ->
  count is_chat_complete (concat evss) = 0%nat.
Proof.
  induction 1 as [|path evs paths evss Ho _ IH]; cbn [concat]; [reflexivity|].
  rewrite count_app, IH, (count_none _ _ (occurrence_no_chat _ _ Ho)).
  reflexivity.
Qed.

(** URLs alone cause no call. *)
Lemma occurrences_remote paths evss :
  Forall2 (occurrence w client) paths evss ->
  Forall (fun path => is_local w path = false) paths ->
  concat evss = [].
Proof.
  induction 1 as [|path evs paths evss Ho _ IH]; intros Hall; [reflexivity|].
  inversion Hall as [|? ? Hp Hps]; subst.
  unfold occurrence in Ho. rewrite Hp in Ho. subst evs.
  cbn. now apply IH.
Qed.

(** One read, one upload and one signed-URL request for each occurrence
    of a local reference. *)
Lemma occurrences_counts paths evss :
  Forall2 (occurrence w client) paths evss ->
  let n := length (filter (is_local w) paths) in
  count is_open_read (concat evss) = n /\
  count is_upload (concat evss) = n /\
  count is_get_signed_url (concat evss) = n.
Proof.
  induction 1 as [|path evs paths evss Ho _ IH]; cbn [concat filter];
    [repeat split|].
  cbn zeta in IH. destruct IH as (IH1 & IH2 & IH3).
  rewrite !count_app, IH1, IH2, IH3.
  unfold occurrence in Ho. destruct (is_local w path).
  - destruct Ho as (fc & fid & ->). repeat split.
  - subst evs. repeat split.
Qed.

(** The reads of one local path are as many as its occurrences. *)
Lemma occurrences_reads paths evss p :
  Forall2 (occurrence w client) paths evss ->
  is_local w p = true ->
  count (is_read_of p) (concat evss) = count_occ string_dec paths p.
Proof.
  intros H Hp.
  induction H as [|path evs paths evss Ho _ IH]; cbn [concat count_occ];
    [reflexivity|].
  rewrite count_app, IH. unfold occurrence in Ho.
  destruct (string_dec path p) as [->|Hne].
  - rewrite Hp in Ho. destruct Ho as (fc & fid & ->).
    unfold count; cbn. now rewrite String.eqb_refl.
  - destruct (is_local w path).
    + destruct Ho as (fc & fid & ->).
      unfold count; cbn.
      now rewrite (proj2 (String.eqb_neq path p) Hne).
    + now subst evs.
Qed.

End Loop.

(** *** [_run] as a whole *)

Lemma run_no_key w paths question t0 :
  has_api_key w = false ->
  _run w paths question t0 = (t0, inl (ValueError no_api_key_msg)).
Proof.
  unfold has_api_key, _run.
  destruct (getenv w "MISTRAL_API_KEY") as [[|a key]|]; try discriminate;
    reflexivity.
Qed.

Lemma run_with_key w paths question t0 :
  has_api_key w = true ->
  _run w paths question t0 =
  match for_each (loop_body w (client_of w)) paths [TextChunk question] t0 with
  | (t1, inl e) => (t1, inl e)
  | (t1, inr chunks) =>
      let messages := [{| role := "user"; content := chunks |}] in
      (t1 ++ [EvChatComplete (client_of w) model_name messages 0%Q],
       completion_result
         (chat_complete w t1 (client_of w) model_name messages 0%Q))
  end.
Proof.
  unfold has_api_key, client_of, _run.
  destruct (getenv w "MISTRAL_API_KEY") as [[|a key]|]; try discriminate.
  intros _. unfold_monad.
  destruct (for_each _ paths _ t0) as [t1 [e|chunks]]; [reflexivity|].
  cbn zeta. unfold completion_result, first_content.
  destruct (chat_complete _ _ _ _ _ _) as [d|resp]; [reflexivity|].
  destruct (choices resp); reflexivity.
Qed.

(** When every reference resolves, the run is the loop's calls, then the
    one completion call, and the result is what that call turns into. *)
Lemma run_resolved w paths question t0 evss cs :
  has_api_key w = true ->
  resolved_all w (client_of w) t0 paths evss cs ->
  _run w paths question t0 =
  (t0 ++ concat evss ++ [chat_event (client_of w) question cs],
   completion_result
     (chat_complete w (t0 ++ concat evss) (client_of w) model_name
                    (chat_messages question cs) 0%Q)).
Proof.
  intros Hk Hall. rewrite (run_with_key _ _ _ _ Hk).
  rewrite (resolved_all_for_each _ _ _ _ _ _ Hall). cbn zeta.
  now rewrite <- app_assoc.
Qed.

Lemma completion_result_ok r answer :
  completion_result r = inr answer ->
  exists resp c rest,
    r = inr resp /\ choices resp = c :: rest /\ answer = message_content c.
Proof.
  unfold completion_result. destruct r as [d|resp]; [discriminate|].
  destruct (choices resp) as [|c rest] eqn:E; [discriminate|].
  intros H; inversion H; subst. exists resp, c, rest. auto.
Qed.

(** A run that returns has resolved every reference and made the
    completion call last. *)
Lemma run_ok_inv w paths question t0 t answer :
  _run w paths question t0 = (t, inr answer) ->
  has_api_key w = true /\
  exists evss cs,
    resolved_all w (client_of w) t0 paths evss cs /\
    t = t0 ++ concat evss ++ [chat_event (client_of w) question cs] /\
    completion_result
      (chat_complete w (t0 ++ concat evss) (client_of w) model_name
                     (chat_messages question cs) 0%Q) = inr answer.
Proof.
  intros H.
  destruct (has_api_key w) eqn:Hk;
    [|rewrite (run_no_key _ _ _ _ Hk) in H; discriminate].
  split; [reflexivity|].
  rewrite (run_with_key _ _ _ _ Hk) in H.
  destruct (for_each _ paths _ t0) as [t1 [e|chunks]] eqn:Hl; [discriminate|].
  apply for_each_resolved_all in Hl as (evss & cs & Hall & -> & ->).
  cbn zeta in H. inversion H as [[Ht Hr]]. clear H.
  exists evss, cs. rewrite <- app_assoc. repeat split; auto.
Qed.

End ToolFacts.

(** ** The example world *)

Module DemoFacts.

Import PDFQATool Spec.
Local Open Scope list_scope.

(** A local PDF resolves, whatever came before. *)
Lemma a_pdf_resolved t :
  resolved Demo.world Demo.client t "./a.pdf" Demo.a_pdf_events Demo.a_pdf_chunk.
Proof.
  apply (resolved_local Demo.world Demo.client t "./a.pdf"
           (Demo.parsed_local "./a.pdf") Demo.pdf_bytes "file-a.pdf"
           "https://signed.example/file-a.pdf"); reflexivity.
Qed.

(** A remote image resolves without a call, in any world. *)
Lemma b_png_resolved w t :
  resolved w Demo.client t "https://example.com/b.png" [] Demo.b_png_chunk.
Proof.
  apply (resolved_remote w Demo.client t "https://example.com/b.png"
           Demo.parsed_b_png); reflexivity.
Qed.

Lemma mixed_resolved :
  resolved_all Demo.world Demo.client []
               ["./a.pdf"; "https://example.com/b.png"]
               [Demo.a_pdf_events; []] [Demo.a_pdf_chunk; Demo.b_png_chunk].
Proof.
  repeat first [ apply resolved_nil | apply resolved_cons ].
  - apply a_pdf_resolved.
  - apply b_png_resolved.
Qed.

Lemma a_pdf_twice_resolved :
  resolved_all Demo.world Demo.client [] ["./a.pdf"; "./a.pdf"]
               [Demo.a_pdf_events; Demo.a_pdf_events] [Demo.a_pdf_chunk; Demo.a_pdf_chunk].
Proof.
  repeat first [ apply resolved_nil | apply resolved_cons ];
    apply a_pdf_resolved.
Qed.

Lemma b_png_alone_resolved :
  resolved_all Demo.world_no_choice Demo.client []
               ["https://example.com/b.png"] [[]] [Demo.b_png_chunk].
Proof.
  repeat first [ apply resolved_nil | apply resolved_cons ].
  apply b_png_resolved.
Qed.

Lemma b_xyz_unsupported : unsupported Demo.world "./b.xyz".
Proof. exists (Demo.parsed_local "./b.xyz"). split; reflexivity. Qed.

(** The scenario of the specification: one upload and one signed URL for
    the local PDF, nothing for the remote image, and one completion call
    with the chunks text, [document_url], [image_url]. *)
Example mixed_batch_run :
  _run Demo.world ["./a.pdf"; "https://example.com/b.png"]
       "Do these documents agree on the applicant's income?" [] =
  ([EvOpenRead "./a.pdf";
    EvUpload Demo.client "a.pdf" Demo.pdf_bytes "ocr";
    EvGetSignedUrl Demo.client "file-a.pdf";
    EvChatComplete Demo.client "mistral-medium-latest"
      [{| role := "user";
          content :=
            [TextChunk "Do these documents agree on the applicant's income?";
             DocumentUrlChunk "https://signed.example/file-a.pdf";
             ImageUrlChunk "https://example.com/b.png"] |}] 0%Q],
   inr "yes").
Proof. reflexivity. Qed.

Example xyz_refused_without_a_read :
  _run Demo.world ["./a.xyz"] "q" [] =
  ([], inl (ValueError
              "Unsupported file type: .xyz. Supported types: .png, .pdf, .jpeg, .jpg")).
Proof. reflexivity. Qed.

(** Letter case does not matter, and the query string and fragment of a URL
    are not part of its extension; those of a local path are. *)
Example extension_examples :
  extension (Demo.parsed_local "./A.PDF") "./A.PDF" = ".pdf" /\
  (exists parsed,
      urlparse Demo.world "HTTP://x.org/a/b.JPeG?x=1.png#frag.pdf" = inr parsed /\
      is_url parsed = true /\
      extension parsed "HTTP://x.org/a/b.JPeG?x=1.png#frag.pdf" = ".jpeg") /\
  (exists parsed,
      urlparse Demo.world "./a.pdf?x=1" = inr parsed /\
      is_url parsed = false /\
      extension parsed "./a.pdf?x=1" = ".pdf?x=1") /\
  extension (Demo.parsed_local "./dir.pdf/readme") "./dir.pdf/readme" = EmptyString /\
  extension (Demo.parsed_local ".pdf") ".pdf" = EmptyString.
Proof. repeat split; eexists; repeat split. Qed.

End DemoFacts.

(** ** The tool's contract *)

Module Contract.

Import PDFQATool Spec ToolFacts.
Local Open Scope list_scope.

(** *** Input schema *)

Lemma validate_within_cap paths question :
  (length paths <= 10)%nat ->
  validate paths question = inr {| paths := paths; question := question |}.
Proof.
  intros H. unfold validate, max_items.
  now rewrite (proj2 (Nat.ltb_ge _ _) H).
Qed.

Lemma validate_over_cap paths question :
  (10 < length paths)%nat ->
  exists msg, validate paths question = inl (ValidationError msg).
Proof.
  intros H. unfold validate, max_items.
  rewrite (proj2 (Nat.ltb_lt _ _) H). eauto.
Qed.

(** Construction reads nothing and cannot fail. *)
Lemma new_total w t0 :
  exists tool, new w t0 = (t0, inr tool) /\ args_schema tool = validate.
Proof. unfold new, ret, ok. eauto. Qed.

(** More than ten references never reach [_run]. *)
Lemma invoke_over_cap tool w paths question t0 :
  args_schema tool = validate ->
  (10 < length paths)%nat ->
  exists msg,
    invoke tool w paths question t0 = (t0, inl (ValidationError msg)).
Proof.
  intros Hs Hn. destruct (validate_over_cap paths question Hn) as [msg Hv].
  exists msg. unfold invoke, bind, lift. now rewrite Hs, Hv.
Qed.

Lemma invoke_within_cap tool w paths question t0 :
  args_schema tool = validate ->
  (length paths <= 10)%nat ->
  invoke tool w paths question t0 = _run w paths question t0.
Proof.
  intros Hs Hn. unfold invoke, bind, lift.
  rewrite Hs, (validate_within_cap _ question Hn). reflexivity.
Qed.

(** C2, at the empty batch: the schema declares [max_items=10] and no
    lower bound, so the tool built as in [MortgageCrew.__init__] accepts
    an empty list of paths; [_run] then skips the loop and sends the
    question alone to the chat endpoint, which answers.  One network call
    is made and no validation error is raised. *)
Theorem empty_batch_reaches_the_model :
  exists tool,
    new Demo.world [] = ([], inr tool) /\
    invoke tool Demo.world [] "q" [] =
    ([EvChatComplete Demo.client "mistral-medium-latest"
        [{| role := "user"; content := [TextChunk "q"] |}] 0%Q],
     inr "yes").
Proof. eexists. split; reflexivity. Qed.

(** *** Credential *)

(** C3, as the specification words it, does not hold: without the key
    the tool is constructed all the same. *)
Lemma construction_without_key_succeeds : ~ construction_requires_key.
Proof.
  intros H.
  destruct (H Demo.world_no_key [] eq_refl) as [e He].
  discriminate He.
Qed.

(** C3, amended: the key is looked up by each call, not at construction.
    Constructing the tool succeeds and makes no call, whether the key is
    set or not; when it is not set, every call of [_run] raises the
    [ValueError] about [MISTRAL_API_KEY] and makes no call. *)
Theorem key_checked_at_call_time w t0 :
  exists tool,
    new w t0 = (t0, inr tool) /\
    (has_api_key w = false ->
     forall paths question t,
       _run w paths question t = (t, inl (ValueError no_api_key_msg))).
Proof.
  destruct (new_total w t0) as (tool & Hn & _).
  exists tool. split; [exact Hn|].
  intros Hk paths question t. now apply run_no_key.
Qed.

Lemma key_checked_at_call_time_witness :
  exists tool,
    new Demo.world_no_key [] = ([], inr tool) /\
    _run Demo.world_no_key ["./a.pdf"] "q" [] =
    ([], inl (ValueError "MISTRAL_API_KEY must be set in the environment")).
Proof.
  destruct (key_checked_at_call_time Demo.world_no_key []) as (tool & Hn & Hr).
  exists tool. split; [exact Hn|].
  apply (Hr eq_refl).
Defined.

(** C4: without a credential (the variable unset, or set to the empty
    string) [_run] raises the configuration error, the [ValueError] about
    [MISTRAL_API_KEY], and the trace is left as it was: no file is read
    and no network call is made, for every batch and question.  Invoked
    through any tool object, the trace is left as it was too. *)
Theorem missing_key_fails_before_io w paths question t0 :
  has_api_key w = false ->
  _run w paths question t0 =
    (t0, inl (ValueError "MISTRAL_API_KEY must be set in the environment")) /\
  forall tool, fst (invoke tool w paths question t0) = t0.
Proof.
  intros Hk. split; [now apply run_no_key|].
  intros tool. unfold invoke, bind, lift.
  destruct (args_schema tool paths question) as [e|input]; [reflexivity|].
  now rewrite run_no_key.
Qed.

Lemma missing_key_fails_before_io_witness :
  has_api_key Demo.world_no_key = false /\
  _run Demo.world_no_key ["./a.pdf"] "q" [] =
    ([], inl (ValueError "MISTRAL_API_KEY must be set in the environment")).
Proof.
  split; [reflexivity|].
  apply (missing_key_fails_before_io Demo.world_no_key ["./a.pdf"] "q" [] eq_refl).
Defined.

(** *** Validation of extensions *)

(** C1, as the specification words it, does not hold: a local PDF that
    comes before a reference with a refused extension is read, uploaded
    and given a signed URL before the refusal. *)
Lemma validation_is_interleaved : ~ batch_validated_before_any_call.
Proof.
  intros H.
  assert (Hex : Exists (unsupported Demo.world) ["./a.pdf"; "./b.xyz"])
    by (apply Exists_cons_tl, Exists_cons_hd, DemoFacts.b_xyz_unsupported).
  destruct (H Demo.world ["./a.pdf"; "./b.xyz"] "q" _ _ eq_refl Hex eq_refl)
    as (_ & Hup & _).
  discriminate Hup.
Qed.

(** C1, amended: validation is done reference by reference, in the same
    round of the loop as the upload.  When the references before the
    first one with a refused extension resolve, [_run] raises the
    [ValueError] that names the refused extension and the allow-list, and
    makes no inference call and no call for the refused reference or any
    later one; the calls made are those of the local references before
    it (one read, one upload, one signed-URL request each), and none at
    all when only URLs come before it. *)
Theorem unsupported_stops_at_first_offender
        w pre bad post question t0 evss cs parsed :
  has_api_key w = true ->
  Permutation (supported_iter w) supported_extensions ->
  resolved_all w (client_of w) t0 pre evss cs ->
  urlparse w bad = inr parsed ->
  Py.mem (extension parsed bad) supported_extensions = false ->
  _run w (pre ++ bad :: post) question t0 =
    (t0 ++ concat evss,
     inl (ValueError ("Unsupported file type: " ++ extension parsed bad
                      ++ ". Supported types: "
                      ++ Py.join ", " (supported_iter w))%string)) /\
  (forall ext, In ext [".pdf"; ".jpg"; ".jpeg"; ".png"] ->
               In ext (supported_iter w)) /\
  Forall2 (occurrence w (client_of w)) pre evss /\
  count is_chat_complete (concat evss) = 0%nat /\
  (Forall (fun path => is_local w path = false) pre -> concat evss = []).
Proof.
  intros Hk Hperm Hall Hp Hm.
  destruct (resolved_all_shape _ _ _ _ _ _ Hall) as (Hocc & _ & _).
  repeat split.
  - rewrite (run_with_key _ _ _ _ Hk), for_each_app.
    rewrite (resolved_all_for_each _ _ _ _ _ _ Hall).
    cbn [for_each]. unfold bind. rewrite loop_body_run, Hp. cbn zeta.
    rewrite Hm. reflexivity.
  - intros ext Hin. apply (Permutation_in _ (Permutation_sym Hperm) Hin).
  - exact Hocc.
  - now apply occurrences_no_chat with (paths := pre) (w := w) (client := client_of w).
  - now apply occurrences_remote with (client := client_of w).
Qed.

Lemma unsupported_stops_at_first_offender_witness :
  _run Demo.world ["./a.pdf"; "./b.xyz"] "q" [] =
    ([EvOpenRead "./a.pdf";
      EvUpload Demo.client "a.pdf" Demo.pdf_bytes "ocr";
      EvGetSignedUrl Demo.client "file-a.pdf"],
     inl (ValueError
            "Unsupported file type: .xyz. Supported types: .png, .pdf, .jpeg, .jpg")).
Proof.
  assert (Hperm : Permutation (supported_iter Demo.world) supported_extensions).
  { cbn. apply Permutation_sym.
    apply (perm_trans (l' := [".pdf"; ".png"; ".jpeg"; ".jpg"])).
    - apply perm_skip. apply (perm_trans (l' := [".jpg"; ".png"; ".jpeg"])).
      + apply perm_skip, perm_swap.
      + apply (perm_trans (l' := [".png"; ".jpg"; ".jpeg"])).
        * apply perm_swap.
        * apply perm_skip, perm_swap.
    - apply perm_swap. }
  assert (Hpre : resolved_all Demo.world (client_of Demo.world) []
                   ["./a.pdf"] [Demo.a_pdf_events] [Demo.a_pdf_chunk])
    by (apply resolved_cons; [apply DemoFacts.a_pdf_resolved | apply resolved_nil]).
  exact (proj1 (unsupported_stops_at_first_offender
                  Demo.world ["./a.pdf"] "./b.xyz" [] "q" [] _ _
                  (Demo.parsed_local "./b.xyz")
                  eq_refl Hperm Hpre eq_refl eq_refl)).
Defined.

(** *** The request *)

(** C5: when [_run] returns, the last call is the completion call, and
    the content of its one message is the text chunk of the question
    followed by one chunk per reference, in input order: the chunk of the
    i-th reference is the one its round of the loop built ([resolved_all]),
    a [document_url] or [image_url] chunk that carries the URL itself for
    a URL and, for a local path, the signed URL answered for the upload of
    that very file.  The question comes first however PDFs and images are
    mixed, and no other chunk is a text chunk. *)
Theorem question_chunk_first w paths question t0 t answer :
  _run w paths question t0 = (t, inr answer) ->
  exists evss chunks,
    resolved_all w (client_of w) t0 paths evss chunks /\
    t = (t0 ++ concat evss)
          ++ [EvChatComplete (client_of w) "mistral-medium-latest"
                [{| role := "user";
                    content := TextChunk question :: chunks |}] 0%Q] /\
    length chunks = length paths /\
    Forall2 (chunk_of w) paths chunks /\
    Forall (fun c => is_text c = false) chunks.
Proof.
  intros H. apply run_ok_inv in H as (_ & evss & cs & Hall & -> & _).
  destruct (resolved_all_shape _ _ _ _ _ _ Hall) as (_ & Hch & Hnt).
  exists evss, cs.
  rewrite <- app_assoc. repeat split; auto.
  symmetry. apply (Forall2_length Hch).
Qed.

(** The chunks of a batch are determined: two ways in which its
    references resolve from the same trace give the same calls and the
    same chunks. *)
Lemma resolved_all_functional w client paths t evss cs :
  resolved_all w client t paths evss cs ->
  forall evss' cs',
    resolved_all w client t paths evss' cs' ->
    evss' = evss /\ cs' = cs.
Proof.
  induction 1 as [t | t path paths evs c evss cs Hr Hall IH];
    intros evss' cs' H';
    inversion H' as [| ? ? ? evs' c' evss'' cs'' Hr' Hall']; subst;
    [split; reflexivity|].
  pose proof (resolved_loop_body _ _ _ _ _ _ [] Hr) as E.
  rewrite (resolved_loop_body _ _ _ _ _ _ [] Hr') in E.
  injection E as Ht Hc. apply app_inv_head in Ht.
  assert (c' = c) by (cbn in Hc; congruence). subst evs' c'.
  destruct (IH _ _ Hall') as [-> ->]. split; reflexivity.
Qed.

Lemma question_chunk_first_witness :
  exists evss chunks,
    resolved_all Demo.world Demo.client []
                 ["./a.pdf"; "https://example.com/b.png"] evss chunks /\
    chunks = [DocumentUrlChunk "https://signed.example/file-a.pdf";
              ImageUrlChunk "https://example.com/b.png"] /\
    Demo.a_pdf_events
      ++ [chat_event Demo.client "Do these agree?"
            [Demo.a_pdf_chunk; Demo.b_png_chunk]]
    = ([] ++ concat evss)
        ++ [EvChatComplete Demo.client "mistral-medium-latest"
              [{| role := "user";
                  content := TextChunk "Do these agree?" :: chunks |}] 0%Q].
Proof.
  destruct (question_chunk_first
              Demo.world ["./a.pdf"; "https://example.com/b.png"]
              "Do these agree?" [] _ "yes" eq_refl)
    as (evss & chunks & Hall & Ht & _).
  exists evss, chunks. split; [exact Hall|].
  destruct (resolved_all_functional _ _ _ _ _ _ DemoFacts.mixed_resolved _ _ Hall)
    as [_ Hc].
  split; [exact Hc | exact Ht].
Defined.

(** C6: when [_run] returns, exactly one of the calls it has made is a
    completion call, whatever the number of references, and that call
    has temperature 0. *)
Theorem one_completion_call w paths question t0 t answer :
  _run w paths question t0 = (t, inr answer) ->
  exists calls,
    t = t0 ++ calls /\
    count is_chat_complete calls = 1%nat /\
    forall client model messages temperature,
      In (EvChatComplete client model messages temperature) calls ->
      temperature = 0%Q.
Proof.
  intros H. apply run_ok_inv in H as (_ & evss & cs & Hall & -> & _).
  destruct (resolved_all_shape _ _ _ _ _ _ Hall) as (Hocc & _ & _).
  exists (concat evss ++ [chat_event (client_of w) question cs]).
  repeat split.
  - rewrite count_app, (occurrences_no_chat _ _ _ _ Hocc). reflexivity.
  - intros client model messages temperature Hin.
    apply in_app_or in Hin as [Hin|[Heq|[]]].
    + pose proof (occurrences_no_chat _ _ _ _ Hocc) as Hc.
      unfold count in Hc. apply length_zero_iff_nil in Hc.
      assert (Hf : In (EvChatComplete client model messages temperature)
                      (filter is_chat_complete (concat evss)))
        by (apply filter_In; auto).
      rewrite Hc in Hf. destruct Hf.
    + unfold chat_event in Heq. now inversion Heq.
Qed.

Lemma one_completion_call_witness :
  exists calls,
    Demo.a_pdf_events
      ++ [chat_event Demo.client "Do these agree?"
            [Demo.a_pdf_chunk; Demo.b_png_chunk]] = calls /\
    count is_chat_complete calls = 1%nat.
Proof.
  destruct (one_completion_call
              Demo.world ["./a.pdf"; "https://example.com/b.png"]
              "Do these agree?" [] _ "yes" eq_refl)
    as (calls & Ht & Hn & _).
  exists calls. split; [exact Ht | exact Hn].
Defined.

(** *** Origin of a reference *)




(** *** The answer *)

(** C8, as the specification words it, does not hold: a completion
    without choices is not reported as a provider error; the access to
    the first choice raises [IndexError]. *)
Lemma no_choice_raises_index_error : ~ no_choice_is_provider_error.
Proof.
  intros H.
  destruct (H Demo.world_no_choice ["https://example.com/b.png"] "q" []
              _ _ {| choices := [] |}
              eq_refl DemoFacts.b_png_alone_resolved eq_refl eq_refl)
    as [detail Hd].
  discriminate Hd.
Qed.

(** C8, amended: when every reference resolves, [_run] makes the
    completion call last, and its outcome is the outcome of that call:
    the content of the first choice, as it is, when there is one; the
    provider's error, as the client raised it, when the call fails; and,
    the access to the first choice not being guarded, an [IndexError]
    when the response has no choice. *)
Theorem completion_outcome w paths question t0 evss cs :
  has_api_key w = true ->
  resolved_all w (client_of w) t0 paths evss cs ->
  let history := t0 ++ concat evss in
  let t := history ++ [chat_event (client_of w) question cs] in
  let response :=
    chat_complete w history (client_of w) "mistral-medium-latest"
                  [{| role := "user"; content := TextChunk question :: cs |}]
                  0%Q in
  (forall resp c rest,
      response = inr resp -> choices resp = c :: rest ->
      _run w paths question t0 = (t, inr (message_content c))) /\
  (forall detail,
      response = inl detail ->
      _run w paths question t0 = (t, inl (SDKError detail))) /\
  (forall resp,
      response = inr resp -> choices resp = [] ->
      _run w paths question t0 =
        (t, inl (IndexError "list index out of range"))).
Proof.
  intros Hk Hall history t response.
  pose proof (run_resolved w paths question t0 evss cs Hk Hall) as Hrun.
  rewrite app_assoc in Hrun. fold history in Hrun. fold t in Hrun.
  change (chat_complete w history (client_of w) model_name
                        (chat_messages question cs) 0%Q)
    with response in Hrun.
  repeat split.
  - intros resp c rest Hr Hc. rewrite Hrun, Hr. cbn. now rewrite Hc.
  - intros detail Hr. now rewrite Hrun, Hr.
  - intros resp Hr Hc. rewrite Hrun, Hr. cbn. now rewrite Hc.
Qed.

Lemma completion_outcome_witness :
  _run Demo.world ["./a.pdf"; "https://example.com/b.png"] "q" [] =
    (Demo.a_pdf_events
       ++ [chat_event Demo.client "q"
             [Demo.a_pdf_chunk; Demo.b_png_chunk]],
     inr "yes") /\
  _run Demo.world_no_choice ["https://example.com/b.png"] "q" [] =
    ([chat_event Demo.client "q" [Demo.b_png_chunk]],
     inl (IndexError "list index out of range")).
Proof.
  split.
  - apply (proj1 (completion_outcome
                    Demo.world ["./a.pdf"; "https://example.com/b.png"] "q" []
                    _ _ eq_refl DemoFacts.mixed_resolved)
             {| choices := [{| message_content := "yes" |}] |}
             {| message_content := "yes" |} [] eq_refl eq_refl).
  - apply (proj2 (proj2 (completion_outcome
                           Demo.world_no_choice ["https://example.com/b.png"]
                           "q" [] _ _ eq_refl DemoFacts.b_png_alone_resolved))
             {| choices := [] |} eq_refl eq_refl).
Defined.

(** *** Extensions *)






(** *** Repeated references *)

(** C10: when [_run] returns, its calls are, reference by reference and
    in input order, those of each occurrence (a read, an upload and a
    signed-URL request of its own for a local reference, none for a
    URL), then the completion call with one chunk per occurrence.  So a
    local path is read as many times as it occurs in the batch, and
    reads, uploads and signed-URL requests are each as many as the
    occurrences of local references: nothing is shared between two
    occurrences of the same path. *)
Theorem no_deduplication w paths question t0 t answer :
  _run w paths question t0 = (t, inr answer) ->
  exists evss chunks,
    t = t0 ++ concat evss ++ [chat_event (client_of w) question chunks] /\
    Forall2 (occurrence w (client_of w)) paths evss /\
    length chunks = length paths /\
    (forall path, is_local w path = true ->
       count (is_read_of path) (concat evss) = count_occ string_dec paths path) /\
    count is_open_read (concat evss) = length (filter (is_local w) paths) /\
    count is_upload (concat evss) = length (filter (is_local w) paths) /\
    count is_get_signed_url (concat evss) = length (filter (is_local w) paths).
Proof.
  intros H. apply run_ok_inv in H as (_ & evss & cs & Hall & -> & _).
  destruct (resolved_all_shape _ _ _ _ _ _ Hall) as (Hocc & Hch & _).
  destruct (occurrences_counts _ _ _ _ Hocc) as (H1 & H2 & H3).
  exists evss, cs. repeat split; auto.
  - symmetry. apply (Forall2_length Hch).
  - intros path Hl. exact (occurrences_reads _ _ _ _ _ Hocc Hl).
Qed.

Lemma no_deduplication_witness :
  exists evss chunks,
    Demo.a_pdf_events ++ Demo.a_pdf_events
      ++ [chat_event Demo.client "q"
            [Demo.a_pdf_chunk; Demo.a_pdf_chunk]]
    = concat evss ++ [chat_event Demo.client "q" chunks] /\
    count (is_read_of "./a.pdf") (concat evss) = 2%nat /\
    count is_upload (concat evss) = 2%nat /\
    count is_get_signed_url (concat evss) = 2%nat /\
    length chunks = 2%nat.
Proof.
  destruct (no_deduplication Demo.world ["./a.pdf"; "./a.pdf"] "q" [] _ "yes"
                             eq_refl)
    as (evss & chunks & Ht & _ & Hlen & Hreads & _ & Hup & Hsig).
  exists evss, chunks. repeat split.
  - exact Ht.
  - exact (Hreads "./a.pdf" eq_refl).
  - exact Hup.
  - exact Hsig.
  - exact Hlen.
Defined.

End Contract.

(** ** Runs that raise *)

Module RunFacts.

Import PDFQATool Spec Outcome ToolFacts.
Local Open Scope list_scope.

Section Loop.

Variable w : World.
Variable client : Mistral.

Lemma stopped_loop_body t path evs e acc :
  stopped w client t path evs e ->
  loop_body w client path acc t = (t ++ evs, inl e).
Proof.
  intros H. rewrite loop_body_run.
  destruct H as [e Hp | parsed Hp Hm | parsed d Hp Hu Hm Hr
                 | parsed fc d Hp Hu Hm Hr Hup
                 | parsed fc fid d Hp Hu Hm Hr Hup Hs];
    rewrite Hp; cbn zeta.
  - now rewrite app_nil_r.
  - rewrite Hm. cbn [negb]. now rewrite app_nil_r.
  - rewrite Hm, Hu. cbn [negb]. rewrite upload_local_run, Hr. reflexivity.
  - rewrite Hm, Hu. cbn [negb]. rewrite upload_local_run, Hr. cbn zeta.
    rewrite Hup. reflexivity.
  - rewrite Hm, Hu. cbn [negb]. rewrite upload_local_run, Hr. cbn zeta.
    rewrite Hup, Hs. reflexivity.
Qed.

Lemma loop_body_stopped t path acc t' e :
  loop_body w client path acc t = (t', inl e) ->
  exists evs, stopped w client t path evs e /\ t' = t ++ evs.
Proof.
  rewrite loop_body_run.
  destruct (urlparse w path) as [e0|parsed] eqn:Hp.
  - intros H; inversion H; subst. exists []. rewrite app_nil_r.
    split; [now apply stopped_parse | reflexivity].
  - cbn zeta.
    destruct (Py.mem _ supported_extensions) eqn:Hm; cbn [negb].
    + destruct (is_url parsed) eqn:Hu; [discriminate|].
      rewrite upload_local_run.
      destruct (read_file w t path) as [d|fc] eqn:Hr.
      * intros H; inversion H; subst. eexists. split; [|reflexivity].
        now apply stopped_read with (parsed := parsed).
      * cbn zeta.
        destruct (files_upload _ _ _ _ _ _) as [d|fid] eqn:Hup.
        -- intros H; inversion H; subst. eexists. split; [|reflexivity].
           now apply stopped_upload with (parsed := parsed).
        -- destruct (files_get_signed_url _ _ _ _) as [d|url] eqn:Hs;
             [|discriminate].
           intros H; inversion H; subst. eexists. split; [|reflexivity].
           now apply stopped_signed_url with (parsed := parsed).
    + intros H; inversion H; subst. exists []. rewrite app_nil_r.
      split; [now apply stopped_extension | reflexivity].
Qed.

(** The loop raises at the first round that does, after the rounds before
    it went through. *)
Lemma stopped_for_each t pre bad post evss cs evs e acc :
  resolved_all w client t pre evss cs ->
  stopped w client (t ++ concat evss) bad evs e ->
  for_each (loop_body w client) (pre ++ bad :: post) acc t =
  (t ++ concat evss ++ evs, inl e).
Proof.
  intros Hall Hs. rewrite for_each_app.
  rewrite (resolved_all_for_each _ _ _ _ _ _ Hall).
  cbn [for_each]. unfold bind.
  rewrite (stopped_loop_body _ _ _ _ (acc ++ cs) Hs).
  now rewrite <- app_assoc.
Qed.

Lemma for_each_stopped paths : forall t acc t' e,
  for_each (loop_body w client) paths acc t = (t', inl e) ->
  exists pre bad post evss cs evs,
    paths = pre ++ bad :: post /\
    resolved_all w client t pre evss cs /\
    stopped w client (t ++ concat evss) bad evs e /\
    t' = t ++ concat evss ++ evs.
Proof.
  induction paths as [|path paths IH]; intros t acc t' e H; [discriminate|].
  cbn [for_each] in H. unfold bind in H.
  destruct (loop_body w client path acc t) as [t1 [e1|acc1]] eqn:Hb.
  - inversion H; subst; clear H.
    apply loop_body_stopped in Hb as (evs & Hs & ->).
    exists [], path, paths, [], [], evs. cbn [concat app].
    rewrite app_nil_r. repeat split; [constructor | exact Hs].
  - apply loop_body_resolved in Hb as (evs0 & c & Hr & -> & ->).
    apply IH in H as (pre & bad & post & evss & cs & evs & -> & Hall & Hs & ->).
    exists (path :: pre), bad, post, (evs0 :: evss), (c :: cs), evs.
    cbn [concat app]. rewrite <- !app_assoc in *.
    repeat split; [now apply resolved_cons | exact Hs].
Qed.

End Loop.

(** When a round of the loop raises, so does [_run], with the calls made
    so far. *)
Lemma run_stopped w pre bad post question t0 evss cs evs e :
  has_api_key w = true ->
  resolved_all w (client_of w) t0 pre evss cs ->
  stopped w (client_of w) (t0 ++ concat evss) bad evs e ->
  _run w (pre ++ bad :: post) question t0 = (t0 ++ concat evss ++ evs, inl e).
Proof.
  intros Hk Hall Hs. rewrite (run_with_key _ _ _ _ Hk).
  now rewrite (stopped_for_each _ _ _ _ _ _ _ _ _ _ _ Hall Hs).
Qed.

(** The three ways in which [_run] raises. *)
Lemma run_raises_inv w paths question t0 t e :
  _run w paths question t0 = (t, inl e) ->
  (has_api_key w = false /\ t = t0 /\ e = ValueError no_api_key_msg) \/
  (has_api_key w = true /\
   exists pre bad post evss cs evs,
     paths = pre ++ bad :: post /\
     resolved_all w (client_of w) t0 pre evss cs /\
     stopped w (client_of w) (t0 ++ concat evss) bad evs e /\
     t = t0 ++ concat evss ++ evs) \/
  (has_api_key w = true /\
   exists evss cs,
     resolved_all w (client_of w) t0 paths evss cs /\
     t = t0 ++ concat evss ++ [chat_event (client_of w) question cs] /\
     completion_result
       (chat_complete w (t0 ++ concat evss) (client_of w) model_name
                      (chat_messages question cs) 0%Q) = inl e).
Proof.
  intros H. destruct (has_api_key w) eqn:Hk.
  - right. rewrite (run_with_key _ _ _ _ Hk) in H.
    destruct (for_each _ paths _ t0) as [t1 [e1|chunks]] eqn:Hl.
    + left. split; [reflexivity|]. inversion H; subst; clear H.
      now apply for_each_stopped in Hl.
    + right. split; [reflexivity|].
      apply for_each_resolved_all in Hl as (evss & cs & Hall & -> & ->).
      cbn zeta in H. inversion H as [[Ht Hr]]. clear H.
      exists evss, cs. rewrite <- app_assoc. repeat split; auto.
  - left. rewrite (run_no_key _ _ _ _ Hk) in H. inversion H; subst. auto.
Qed.

End RunFacts.

(** ** What [_run] does when something fails, and what it never does *)

Module Robustness.

Import PDFQATool Spec Outcome ToolFacts RunFacts.
Local Open Scope list_scope.

Lemma count_zero_none p (t : trace) e :
  count p t = 0%nat -> In e t -> p e = false.
Proof.
  unfold count. intros Hc Hin.
  destruct (p e) eqn:E; [|reflexivity].
  apply length_zero_iff_nil in Hc.
  assert (Hf : In e (filter p t)) by (apply filter_In; auto).
  rewrite Hc in Hf. destruct Hf.
Qed.

Lemma stopped_no_chat w client t path evs e :
  stopped w client t path evs e -> count is_chat_complete evs = 0%nat.
Proof. now destruct 1. Qed.

(** A list that ends in [x] is cut before [x] or inside what precedes. *)
Lemma split_before_last {A} (l a b : list A) (x y : A) :
  l ++ [x] = a ++ y :: b -> b = [] \/ In y l.
Proof.
  intros H. destruct b as [|b0 b]; [now left|]. right.
  assert (Hl : l ++ [x] = (a ++ removelast (y :: b0 :: b)) ++ [last (y :: b0 :: b) y]).
  { rewrite H, <- app_assoc. f_equal.
    apply app_removelast_last. discriminate. }
  apply app_inj_tail in Hl as [-> _].
  apply in_or_app. right. cbn. now left.
Qed.

(** X1: whatever the outcome, [_run] only adds calls to the trace, makes at
    most one completion call, and makes it last.  Without a completion
    call the run has raised; with one, every reference of the batch has
    resolved before it. *)
Theorem completion_call_last_and_only w paths question t0 t r :
  _run w paths question t0 = (t, r) ->
  exists calls,
    t = t0 ++ calls /\
    (count is_chat_complete calls <= 1)%nat /\
    (forall a ev b,
        calls = a ++ ev :: b -> is_chat_complete ev = true -> b = []) /\
    (count is_chat_complete calls = 0%nat -> exists e, r = inl e) /\
    (count is_chat_complete calls = 1%nat ->
     exists evss cs,
       resolved_all w (client_of w) t0 paths evss cs /\
       calls = concat evss ++ [chat_event (client_of w) question cs]).
Proof.
  intros H.
  assert (Hcases :
    (exists calls e, t = t0 ++ calls /\ r = inl e /\
                     count is_chat_complete calls = 0%nat) \/
    (exists evss cs,
        resolved_all w (client_of w) t0 paths evss cs /\
        t = t0 ++ concat evss ++ [chat_event (client_of w) question cs])).
  { destruct r as [e|answer].
    - apply run_raises_inv in H
        as [(_ & -> & ->)
           |[(_ & pre & bad & post & evss & cs & evs & -> & Hall & Hs & ->)
            |(_ & evss & cs & Hall & -> & _)]].
      + left. exists [], (ValueError no_api_key_msg). now rewrite app_nil_r.
      + left. exists (concat evss ++ evs), e. repeat split.
        destruct (resolved_all_shape _ _ _ _ _ _ Hall) as (Hocc & _ & _).
        rewrite count_app, (occurrences_no_chat _ _ _ _ Hocc).
        now rewrite (stopped_no_chat _ _ _ _ _ _ Hs).
      + right. eauto.
    - apply run_ok_inv in H as (_ & evss & cs & Hall & -> & _). right. eauto. }
  destruct Hcases as [(calls & e & -> & -> & Hc)|(evss & cs & Hall & ->)].
  - exists calls. rewrite Hc. repeat split.
    + lia.
    + intros a ev b -> Hev.
      rewrite (count_zero_none _ _ ev Hc) in Hev; [discriminate|].
      apply in_or_app. right. now left.
    + eauto.
    + discriminate.
  - destruct (resolved_all_shape _ _ _ _ _ _ Hall) as (Hocc & _ & _).
    pose proof (occurrences_no_chat _ _ _ _ Hocc) as Hc.
    exists (concat evss ++ [chat_event (client_of w) question cs]).
    rewrite count_app, Hc. repeat split.
    + cbn. lia.
    + intros a ev b Heq Hev.
      destruct (split_before_last _ _ _ _ _ Heq) as [Hb|Hin]; [exact Hb|].
      now rewrite (count_zero_none _ _ ev Hc Hin) in Hev.
    + discriminate.
    + eauto.
Qed.

Lemma completion_call_last_and_only_witness :
  exists calls,
    Demo.a_pdf_events = [] ++ calls /\
    count is_chat_complete calls = 0%nat /\
    (count is_chat_complete calls <= 1)%nat.
Proof.
  destruct (completion_call_last_and_only
              Demo.world ["./a.pdf"; "./b.xyz"] "q" [] _ _ eq_refl)
    as (calls & Ht & Hle & _).
  exists calls. repeat split; [exact Ht | | exact Hle].
  cbn [app] in Ht. now subst calls.
Defined.

(** X2: the first call that fails ends the run.  After references that
    resolved, for a local reference with a supported extension: a failed
    read raises the exception [open] or [read] raised, as it is (an
    [OSError] for a file that cannot be opened, a [ValueError] for a path
    with a null character), with no upload; a failed upload raises the
    client's error with no signed-URL request; a failed signed-URL request
    raises the client's error.  In each case the failed call is the last
    one: the references after it are not touched and no completion call is
    made. *)
Theorem failing_call_aborts w pre bad post question t0 evss cs parsed :
  has_api_key w = true ->
  resolved_all w (client_of w) t0 pre evss cs ->
  urlparse w bad = inr parsed ->
  is_url parsed = false ->
  Py.mem (extension parsed bad) supported_extensions = true ->
  let h := t0 ++ concat evss in
  let client := client_of w in
  let read := EvOpenRead bad in
  let upload fc := EvUpload client (OsPath.basename bad) fc "ocr" in
  (forall e,
      read_file w h bad = inl e ->
      _run w (pre ++ bad :: post) question t0 = (h ++ [read], inl e)) /\
  (forall fc detail,
      read_file w h bad = inr fc ->
      files_upload w (h ++ [read]) client (OsPath.basename bad) fc "ocr"
        = inl detail ->
      _run w (pre ++ bad :: post) question t0 =
        (h ++ [read; upload fc], inl (SDKError detail))) /\
  (forall fc file_id detail,
      read_file w h bad = inr fc ->
      files_upload w (h ++ [read]) client (OsPath.basename bad) fc "ocr"
        = inr file_id ->
      files_get_signed_url w (h ++ [read; upload fc]) client file_id
        = inl detail ->
      _run w (pre ++ bad :: post) question t0 =
        (h ++ [read; upload fc; EvGetSignedUrl client file_id],
         inl (SDKError detail))).
Proof.
  intros Hk Hall Hp Hu Hm h client read upload. repeat split.
  - intros d Hr. unfold h. rewrite <- app_assoc.
    apply (run_stopped _ _ _ _ _ _ _ _ _ _ Hk Hall).
    now apply stopped_read with (parsed := parsed).
  - intros fc d Hr Hup. unfold h. rewrite <- app_assoc.
    apply (run_stopped _ _ _ _ _ _ _ _ _ _ Hk Hall).
    now apply stopped_upload with (parsed := parsed).
  - intros fc fid d Hr Hup Hs. unfold h. rewrite <- app_assoc.
    apply (run_stopped _ _ _ _ _ _ _ _ _ _ Hk Hall).
    now apply stopped_signed_url with (parsed := parsed).
Qed.

Lemma faulty_a_pdf_resolved :
  resolved_all Faulty.world (client_of Faulty.world) [] ["./a.pdf"]
               [Demo.a_pdf_events] [Demo.a_pdf_chunk].
Proof.
  apply resolved_cons; [|apply resolved_nil].
  apply (resolved_local Faulty.world Demo.client [] "./a.pdf"
           (Demo.parsed_local "./a.pdf") Demo.pdf_bytes "file-a.pdf"
           "https://signed.example/file-a.pdf"); reflexivity.
Qed.

Lemma failing_call_aborts_witness :
  _run Faulty.world ["./a.pdf"; "./missing.pdf"; "./c.png"] "q" [] =
    (Demo.a_pdf_events ++ [EvOpenRead "./missing.pdf"],
     inl (OSError "[Errno 2] No such file or directory: './missing.pdf'")) /\
  _run Faulty.world ["./big.pdf"; "./c.png"] "q" [] =
    ([EvOpenRead "./big.pdf";
      EvUpload Demo.client "big.pdf" Demo.pdf_bytes "ocr"],
     inl (SDKError "quota exceeded")) /\
  _run Faulty.world ["./gone.pdf"; "./c.png"] "q" [] =
    ([EvOpenRead "./gone.pdf";
      EvUpload Demo.client "gone.pdf" Demo.pdf_bytes "ocr";
      EvGetSignedUrl Demo.client "file-gone.pdf"],
     inl (SDKError "file not found")) /\
  _run Faulty.world [Faulty.nul_path; "./c.png"] "q" [] =
    ([EvOpenRead Faulty.nul_path], inl (ValueError "embedded null byte")).
Proof.
  split; [|split; [|split]].
  - exact (proj1 (failing_call_aborts
                    Faulty.world ["./a.pdf"] "./missing.pdf" ["./c.png"] "q" []
                    _ _ (Demo.parsed_local "./missing.pdf")
                    eq_refl faulty_a_pdf_resolved eq_refl eq_refl eq_refl)
             _ eq_refl).
  - exact (proj1 (proj2 (failing_call_aborts
                           Faulty.world [] "./big.pdf" ["./c.png"] "q" []
                           [] [] (Demo.parsed_local "./big.pdf")
                           eq_refl (resolved_nil _ _ _) eq_refl eq_refl eq_refl))
             Demo.pdf_bytes _ eq_refl eq_refl).
  - exact (proj2 (proj2 (failing_call_aborts
                           Faulty.world [] "./gone.pdf" ["./c.png"] "q" []
                           [] [] (Demo.parsed_local "./gone.pdf")
                           eq_refl (resolved_nil _ _ _) eq_refl eq_refl eq_refl))
             Demo.pdf_bytes "file-gone.pdf" _ eq_refl eq_refl eq_refl).
  - exact (proj1 (failing_call_aborts
                    Faulty.world [] Faulty.nul_path ["./c.png"] "q" []
                    [] [] (Demo.parsed_local Faulty.nul_path)
                    eq_refl (resolved_nil _ _ _) eq_refl eq_refl eq_refl)
             _ eq_refl).
Defined.

(** [urlparse] raises nothing but [ValueError]. *)
Lemma urlparse_raises_value_error host_err url e :
  UrlParse.urlparse host_err url = inl e -> exists msg, e = ValueError msg.
Proof.
  unfold UrlParse.urlparse, UrlParse.urlsplit.
  destruct (UrlParse.split_scheme _) as [sch rest].
  assert (Hn : forall e', UrlParse.split_netloc host_err rest = inl e' ->
                          exists msg, e' = ValueError msg).
  { unfold UrlParse.split_netloc. intros e'.
    destruct (String.eqb _ "//"); [|discriminate].
    destruct (UrlParse._splitnetloc rest 2) as [nl u].
    destruct (_ || _).
    - intros H; inversion H; eauto.
    - destruct (_ && _); [|discriminate].
      unfold UrlParse._check_bracketed_netloc, UrlParse._check_bracketed_host.
      destruct (Py.partition "[" _) as [[bb ho] br].
      assert (Hh : forall hn, rbind
                     match host_err hn with
                     | Some msg => raise (ValueError msg)
                     | None => ok tt
                     end (fun _ : unit => ok (nl, u)) = inl e' ->
                   exists msg, e' = ValueError msg).
      { intros hn. destruct (host_err hn); cbn; [|discriminate].
        intros H; inversion H; eauto. }
      destruct ho.
      + destruct (UrlParse.nonempty bb); [intros H; inversion H; eauto|].
        destruct (Py.partition "]" br) as [[hn x] port].
        destruct (_ && _); [intros H; inversion H; eauto|]. apply Hh.
      + destruct (Py.partition ":" _) as [[hn x] port]. apply Hh. }
  destruct (UrlParse.split_netloc host_err rest) as [e'|[nl u]] eqn:E;
    cbn [rbind].
  - intros H; inversion H; subst. now apply Hn.
  - destruct (if Py.contains "#" u then _ else _) as [u1 frag].
    destruct (if Py.contains "?" u1 then _ else _) as [u2 qry].
    cbn [rbind ok].
    destruct (if _ && _ then _ else _) as [u3 prm]. discriminate.
Qed.

(** X3: a reference that [urlparse] refuses (a network location with an
    unbalanced or ill-formed bracket) makes [_run] raise the [ValueError]
    of [urlparse] itself, not the unsupported-type error, whatever its
    extension; nothing is read or uploaded for it, the references after it
    are not touched and no completion call is made. *)
Theorem parse_error_propagates w pre bad post question t0 evss cs e :
  has_api_key w = true ->
  resolved_all w (client_of w) t0 pre evss cs ->
  urlparse w bad = inl e ->
  (exists msg, e = ValueError msg) /\
  _run w (pre ++ bad :: post) question t0 = (t0 ++ concat evss, inl e).
Proof.
  intros Hk Hall Hp. split.
  - exact (urlparse_raises_value_error _ _ _ Hp).
  - rewrite <- (app_nil_r (concat evss)).
    apply (run_stopped _ _ _ _ _ _ _ _ _ _ Hk Hall).
    now apply stopped_parse.
Qed.

Lemma parse_error_propagates_witness :
  _run Demo.world ["//[scans/a.pdf"; "./b.pdf"] "q" [] =
    ([], inl (ValueError "Invalid IPv6 URL")).
Proof.
  exact (proj2 (parse_error_propagates
                  Demo.world [] "//[scans/a.pdf" ["./b.pdf"] "q" [] [] []
                  (ValueError "Invalid IPv6 URL")
                  eq_refl (resolved_nil _ _ _) eq_refl)).
Defined.




(** *** Every call is accounted for *)

Lemma rfind_none_has c s : Py.rfind c s < 0 -> Py.has c s = false.
Proof.
  induction s as [|a s IH]; [reflexivity|].
  rewrite PyFacts.rfind_cons. cbn [Py.has].
  pose proof (PyFacts.rfind_bounds c s) as Hb.
  destruct (Py.rfind c s <? 0) eqn:E.
  - apply Z.ltb_lt in E. destruct (Ascii.eqb a c); [lia|].
    intros _. now rewrite IH.
  - apply Z.ltb_ge in E. lia.
Qed.

Lemma basename_has_no_sep p : Py.contains "/" (OsPath.basename p) = false.
Proof.
  rewrite PyFacts.contains_has. apply rfind_none_has.
  rewrite OsPathFacts.basename_no_sep. lia.
Qed.

Lemma resolved_is_local w client t path evs c :
  resolved w client t path evs c -> evs <> [] -> is_local w path = true.
Proof.
  unfold is_local.
  intros [parsed Hp Hu Hm | parsed fc fid url Hp Hu Hm Hr Hup Hs] Hne.
  - now destruct Hne.
  - now rewrite Hp, Hu.
Qed.

Lemma resolved_orderly w client paths h pre evss cs tail :
  resolved_all w client h pre evss cs ->
  (forall path, In path pre -> In path paths) ->
  orderly w client paths (h ++ concat evss) tail ->
  orderly w client paths h (concat evss ++ tail).
Proof.
  induction 1 as [t | t path pre evs c evss cs Hr Hall IH]; intros Hin Ht.
  - cbn in *. now rewrite app_nil_r in Ht.
  - cbn [concat] in *. rewrite app_assoc in Ht.
    specialize (IH (fun q Hq => Hin q (or_intror Hq)) Ht).
    pose proof (resolved_is_local _ _ _ _ _ _ Hr) as Hloc.
    destruct Hr as [parsed Hp Hu Hm | parsed fc fid url Hp Hu Hm Hrd Hup Hs].
    + cbn [app]. now rewrite app_nil_r in IH.
    + rewrite <- app_assoc.
      apply orderly_round; auto.
      * apply Hin. now left.
      * apply Hloc. discriminate.
Qed.

Lemma stopped_orderly w client paths h bad evs e :
  stopped w client h bad evs e ->
  In bad paths ->
  orderly w client paths h evs.
Proof.
  intros Hs Hin.
  assert (Hloc : forall parsed,
             urlparse w bad = inr parsed -> is_url parsed = false ->
             is_local w bad = true)
    by (intros parsed Hp Hu; unfold is_local; now rewrite Hp, Hu).
  destruct Hs as [e Hp | parsed Hp Hm | parsed d Hp Hu Hm Hr
                 | parsed fc d Hp Hu Hm Hr Hup
                 | parsed fc fid d Hp Hu Hm Hr Hup Hsig].
  - constructor.
  - constructor.
  - apply orderly_read; eauto.
  - apply orderly_upload; eauto.
  - rewrite <- (app_nil_r (local_events _ _ _ _)).
    apply orderly_round; eauto. constructor.
Qed.

(** The calls of any run, returned or raised, are orderly. *)
Lemma run_orderly w paths question t0 t r :
  _run w paths question t0 = (t, r) ->
  exists calls, t = t0 ++ calls /\ orderly w (client_of w) paths t0 calls.
Proof.
  intros H. destruct r as [e|answer].
  - apply run_raises_inv in H
      as [(_ & -> & ->)
         |[(_ & pre & bad & post & evss & cs & evs & -> & Hall & Hs & ->)
          |(_ & evss & cs & Hall & -> & _)]].
    + exists []. rewrite app_nil_r. split; [reflexivity | constructor].
    + exists (concat evss ++ evs). split; [reflexivity|].
      apply (resolved_orderly _ _ _ _ _ _ _ _ Hall).
      * intros path Hp. apply in_or_app. now left.
      * apply (stopped_orderly _ _ _ _ _ _ _ Hs). apply in_elt.
    + exists (concat evss ++ [chat_event (client_of w) question cs]).
      split; [reflexivity|].
      apply (resolved_orderly _ _ _ _ _ _ _ _ Hall); [auto|]. constructor.
  - apply run_ok_inv in H as (_ & evss & cs & Hall & -> & _).
    exists (concat evss ++ [chat_event (client_of w) question cs]).
    split; [reflexivity|].
    apply (resolved_orderly _ _ _ _ _ _ _ _ Hall); [auto|]. constructor.
Qed.

Lemma orderly_upload_inv w client paths h calls :
  orderly w client paths h calls ->
  forall a c file_name fc purpose b,
    calls = a ++ EvUpload c file_name fc purpose :: b ->
    purpose = "ocr" /\ c = client /\
    exists a' path,
      a = a' ++ [EvOpenRead path] /\
      In path paths /\ is_local w path = true /\
      file_name = OsPath.basename path /\
      read_file w (h ++ a') path = inr fc.
Proof.
  induction 1 as [h | h model messages temperature | h path Hin Hloc
                 | h path fc0 Hin Hloc Hr
                 | h path fc0 fid rest Hin Hloc Hr Hup Hrest IH];
    intros a c file_name fc purpose b Heq.
  - now destruct a.
  - destruct a as [|x [|y a]]; discriminate.
  - destruct a as [|x [|y a]]; discriminate.
  - destruct a as [|x [|y [|z a]]]; try discriminate.
    inversion Heq; subst; clear Heq.
    repeat split. exists [], path. rewrite app_nil_r. auto.
  - unfold local_events in Heq.
    destruct a as [|x [|y [|z a]]]; try discriminate.
    + cbn in Heq. inversion Heq; subst; clear Heq.
      repeat split. exists [], path. rewrite app_nil_r. auto.
    + cbn in Heq. inversion Heq; subst; clear Heq.
      destruct (IH _ _ _ _ _ _ eq_refl)
        as (Hp & Hc & a' & path' & -> & Hin' & Hloc' & Hn & Hr').
      repeat split; auto.
      exists (local_events client path fc0 fid ++ a'), path'.
      rewrite app_assoc. repeat split; auto.
Qed.

(** X5: in any run, returned or raised, every upload is made by the client
    built from the environment's key, with purpose ["ocr"], under a file
    name that holds no ['/'], and comes right after the read of a local
    path of the batch: the file name is that path's base name and the
    bytes uploaded are the bytes that read returned.  Nothing else is ever
    uploaded. *)
Theorem uploads_come_from_the_batch w paths question t0 t r :
  _run w paths question t0 = (t, r) ->
  exists calls,
    t = t0 ++ calls /\
    forall a client file_name file_content purpose b,
      calls = a ++ EvUpload client file_name file_content purpose :: b ->
      purpose = "ocr" /\
      client = client_of w /\
      Py.contains "/" file_name = false /\
      exists a' path,
        a = a' ++ [EvOpenRead path] /\
        In path paths /\ is_local w path = true /\
        file_name = OsPath.basename path /\
        read_file w (t0 ++ a') path = inr file_content.
Proof.
  intros H. apply run_orderly in H as (calls & -> & Ho).
  exists calls. split; [reflexivity|].
  intros a client file_name fc purpose b Heq.
  destruct (orderly_upload_inv _ _ _ _ _ Ho _ _ _ _ _ _ Heq)
    as (Hp & Hc & a' & path & Ha & Hin & Hloc & Hn & Hr).
  repeat split; auto.
  - subst file_name. apply basename_has_no_sep.
  - exists a', path. auto.
Qed.

Lemma uploads_come_from_the_batch_witness :
  exists a' path,
    [EvOpenRead "./scans/a.pdf"] = a' ++ [EvOpenRead path] /\
    In path ["./scans/a.pdf"; "./b.xyz"] /\
    "a.pdf" = OsPath.basename path /\
    read_file Demo.world ([] ++ a') path = inr Demo.pdf_bytes.
Proof.
  destruct (uploads_come_from_the_batch
              Demo.world ["./scans/a.pdf"; "./b.xyz"] "q" [] _ _ eq_refl)
    as (calls & Ht & Hinv).
  cbn [app] in Ht. subst calls.
  destruct (Hinv [EvOpenRead "./scans/a.pdf"] Demo.client "a.pdf"
                 Demo.pdf_bytes "ocr"
                 [EvGetSignedUrl Demo.client "file-a.pdf"] eq_refl)
    as (_ & _ & _ & a' & path & Ha & Hin & _ & Hn & Hr).
  exists a', path. auto.
Defined.

(** *** Batches of URLs *)

Lemma supported_urls_resolved w client paths :
  Forall (supported_url w) paths ->
  forall t,
  exists cs,
    resolved_all w client t paths (map (fun _ => []) paths) cs /\
    Forall2 (fun path c => chunk_ref c = Some path /\ is_text c = false)
            paths cs.
Proof.
  induction 1 as [|path paths (parsed & Hp & Hu & Hm) _ IH]; intros t.
  - exists []. split; constructor.
  - destruct (IH (t ++ [])) as (cs & Hall & Hch).
    exists (chunk_for (extension parsed path) path :: cs). split.
    + cbn [map]. apply resolved_cons; [now apply resolved_remote | exact Hall].
    + constructor; [|exact Hch].
      unfold chunk_for. now destruct (String.eqb _ ".pdf").
Qed.

Lemma concat_nils {A B} (l : list A) :
  concat (map (fun _ => @nil B) l) = [].
Proof. induction l; cbn; auto. Qed.

(** X6: a batch made of [http]/[https] URLs with supported extensions
    costs exactly one call, the completion call: nothing is read, fetched
    or uploaded, whatever the file system and the upload endpoint would
    answer, and each URL is passed on as it is, in input order, after the
    question. *)
Theorem url_batch_single_call w paths question t0 :
  has_api_key w = true ->
  Forall (supported_url w) paths ->
  exists chunks,
    Forall2 (fun path c => chunk_ref c = Some path /\ is_text c = false)
            paths chunks /\
    _run w paths question t0 =
      (t0 ++ [EvChatComplete (client_of w) "mistral-medium-latest"
                [{| role := "user";
                    content := TextChunk question :: chunks |}] 0%Q],
       completion_result
         (chat_complete w t0 (client_of w) "mistral-medium-latest"
            [{| role := "user"; content := TextChunk question :: chunks |}]
            0%Q)).
Proof.
  intros Hk Hall.
  destruct (supported_urls_resolved w (client_of w) paths Hall t0)
    as (cs & Hres & Hch).
  exists cs. split; [exact Hch|].
  rewrite (run_resolved _ _ _ _ _ _ Hk Hres), concat_nils.
  cbn [app]. now rewrite app_nil_r.
Qed.

Lemma url_batch_single_call_witness :
  exists chunks,
    _run Faulty.world
         ["https://example.com/b.png"; "HTTP://example.com/big.PDF?page=2"]
         "q" [] =
      ([EvChatComplete Demo.client "mistral-medium-latest"
          [{| role := "user"; content := TextChunk "q" :: chunks |}] 0%Q],
       inr "yes").
Proof.
  assert (H1 : supported_url Faulty.world "https://example.com/b.png")
    by (eexists; repeat split).
  assert (H2 : supported_url Faulty.world "HTTP://example.com/big.PDF?page=2")
    by (eexists; repeat split).
  destruct (url_batch_single_call
              Faulty.world
              ["https://example.com/b.png"; "HTTP://example.com/big.PDF?page=2"]
              "q" [] eq_refl
              (Forall_cons _ H1 (Forall_cons _ H2 (Forall_nil _))))
    as (chunks & _ & Hrun).
  exists chunks. exact Hrun.
Defined.

(** *** Successive invocations *)

(** X7: nothing is kept from one invocation to the next.  When two
    invocations on the same batch, one after the other, both return, each
    has made its own read, upload and signed-URL request for every
    occurrence of a local reference, and its own completion call. *)
Theorem nothing_cached_between_runs w paths q1 q2 t0 t1 t2 a1 a2 :
  _run w paths q1 t0 = (t1, inr a1) ->
  _run w paths q2 t1 = (t2, inr a2) ->
  exists c1 c2,
    t1 = t0 ++ c1 /\ t2 = t1 ++ c2 /\
    let n := length (filter (is_local w) paths) in
    (count is_open_read c1 = n /\ count is_open_read c2 = n) /\
    (count is_upload c1 = n /\ count is_upload c2 = n) /\
    (count is_get_signed_url c1 = n /\ count is_get_signed_url c2 = n) /\
    (count is_chat_complete c1 = 1%nat /\ count is_chat_complete c2 = 1%nat).
Proof.
  assert (Hone : forall q t t' a,
             _run w paths q t = (t', inr a) ->
             exists c,
               t' = t ++ c /\
               count is_open_read c = length (filter (is_local w) paths) /\
               count is_upload c = length (filter (is_local w) paths) /\
               count is_get_signed_url c = length (filter (is_local w) paths) /\
               count is_chat_complete c = 1%nat).
  { intros q t t' a H.
    apply run_ok_inv in H as (_ & evss & cs & Hall & -> & _).
    destruct (resolved_all_shape _ _ _ _ _ _ Hall) as (Hocc & _ & _).
    destruct (occurrences_counts _ _ _ _ Hocc) as (H1 & H2 & H3).
    exists (concat evss ++ [chat_event (client_of w) q cs]).
    rewrite !count_app, H1, H2, H3, (occurrences_no_chat _ _ _ _ Hocc).
    cbn. repeat split; lia. }
  intros Hr1 Hr2.
  destruct (Hone _ _ _ _ Hr1) as (c1 & -> & A1 & A2 & A3 & A4).
  destruct (Hone _ _ _ _ Hr2) as (c2 & -> & B1 & B2 & B3 & B4).
  exists c1, c2. cbn zeta. repeat split; assumption.
Qed.

Lemma nothing_cached_between_runs_witness :
  exists c1 c2,
    Demo.a_pdf_events ++ [chat_event Demo.client "q" [Demo.a_pdf_chunk]]
      = [] ++ c1 /\
    count is_upload c1 = 1%nat /\ count is_upload c2 = 1%nat.
Proof.
  destruct (nothing_cached_between_runs
              Demo.world ["./a.pdf"] "q" "q" [] _ _ "yes" "yes"
              eq_refl eq_refl)
    as (c1 & c2 & Ht1 & _ & _ & (Hu1 & Hu2) & _).
  exists c1, c2. repeat split; assumption.
Defined.

End Robustness.


(** ** The crew and the dashboard *)

Module CrewFacts.

Import MortgageCrew App.
Local Open Scope list_scope.

(** X9: importing [mortgage_crew] needs [OPENAI_API_KEY].  Once the two
    configuration files are loaded and the [LLM] object is built, the
    assignment of the variable to itself raises [TypeError] when the
    variable is unset; when it is set, to the empty string even, the
    import goes through, with the two configurations as loaded and the
    environment as it was. *)
Theorem import_needs_openai_key P (host : Host P) agents_cfg tasks_cfg :
  load_yaml host "./mortgage_agents.yaml" = inr agents_cfg ->
  load_yaml host "./mortgage_tasks_lenieant.yaml" = inr tasks_cfg ->
  llm_error host {| model := "openai/gpt-4o-mini"; temperature := 1 # 10 |}
    = None ->
  (environ host "OPENAI_API_KEY" = None ->
   import_module host = inl (TypeError "str expected, not NoneType")) /\
  (forall key,
      environ host "OPENAI_API_KEY" = Some key ->
      exists g,
        import_module host = inr g /\
        agents_config g = agents_cfg /\
        tasks_config g = tasks_cfg /\
        forall k, environ_after g k = environ host k).
Proof.
  intros Ha Ht Hl. unfold import_module. rewrite Ha, Ht. cbn [cbind].
  rewrite Hl. split.
  - intros He. now rewrite He.
  - intros key He. rewrite He. cbn [environ_setitem cbind].
    eexists. repeat split. cbn [environ_after]. intros k.
    destruct (String.eqb k "OPENAI_API_KEY") eqn:E; [|reflexivity].
    apply String.eqb_eq in E. now subst k.
Qed.

Lemma import_needs_openai_key_witness :
  import_module (DemoCrew.host None)
    = inl (TypeError "str expected, not NoneType") /\
  exists g,
    import_module (DemoCrew.host (Some EmptyString)) = inr g /\
    environ_after g "OPENAI_API_KEY" = Some EmptyString.
Proof.
  split.
  - exact (proj1 (import_needs_openai_key
                    _ (DemoCrew.host None) _ _ eq_refl eq_refl eq_refl)
             eq_refl).
  - destruct (proj2 (import_needs_openai_key
                       _ (DemoCrew.host (Some EmptyString)) _ _
                       eq_refl eq_refl eq_refl)
                EmptyString eq_refl)
      as (g & Hi & _ & _ & He).
    exists g. split; [exact Hi | exact (He "OPENAI_API_KEY")].
Defined.

(** What [crew()] is made of, when it is built. *)
Lemma crew_inv g self full :
  crew g self = inr full ->
  exists a1 a2 a3 t1 t2 t3,
    document_validator g self = inr a1 /\
    validate_documents_task g self = inr t1 /\
    full = {| agents := [a1; a2; a3]; tasks := [t1; t2; t3];
              process := sequential; crew_memory := true;
              crew_verbose := true |} /\
    task_agent t1 = a1 /\ task_agent t2 = a2 /\ task_agent t3 = a3.
Proof.
  unfold crew. intros Hc.
  destruct (document_validator g self) as [e|a1] eqn:H1; [discriminate|].
  destruct (loan_processor g self) as [e|a2] eqn:H2; [discriminate|].
  destruct (underwriter g self) as [e|a3] eqn:H3; [discriminate|].
  destruct (validate_documents_task g self) as [e|t1] eqn:T1; [discriminate|].
  destruct (process_documents_task g self) as [e|t2] eqn:T2; [discriminate|].
  destruct (underwriter_task g self) as [e|t3] eqn:T3; [discriminate|].
  cbn [cbind] in Hc. inversion Hc; subst full; clear Hc.
  exists a1, a2, a3, t1, t2, t3. repeat split.
  - unfold validate_documents_task, task in T1. rewrite H1 in T1.
    destruct (subscript _ _); [discriminate|]. now inversion T1.
  - unfold process_documents_task, task in T2. rewrite H2 in T2.
    destruct (subscript _ _); [discriminate|]. now inversion T2.
  - unfold underwriter_task, task in T3. rewrite H3 in T3.
    destruct (subscript _ _); [discriminate|]. now inversion T3.
Qed.



(** X12: the dashboard never runs the validation-only crew.  [run_crew]
    kicks off the module-level crew, built once by [crew()], whatever the
    flag: the validation pass runs the same three tasks as the full pass
    and only reports the first output, whereas [MortgageCrew.kickoff] with
    the same inputs would have run a crew of one task. *)
Theorem dashboard_validation_runs_full_crew
        P (host : Host P) g self full :
  crew g self = inr full ->
  (forall flag,
      exists rest,
        fst (run_crew host full flag)
          = EvKickoff full [("validation_only", PyBool flag)] :: rest /\
        Forall (fun e => match e with EvKickoff _ _ => False | _ => True end)
               rest) /\
  length (tasks full) = 3%nat /\
  exists c,
    kickoff_crew g self (Some [("validation_only", PyBool true)]) = inr c /\
    length (tasks c) = 1%nat /\
    c <> full.
Proof.
  intros Hc. split; [|split].
  - intros flag. unfold run_crew.
    destruct (run_crew_try host full flag) as [e|res];
      eexists; (split; [reflexivity|]); repeat constructor.
  - destruct (crew_inv _ _ _ Hc)
      as (a1 & a2 & a3 & t1 & t2 & t3 & _ & _ & -> & _). reflexivity.
  - destruct (crew_inv _ _ _ Hc)
      as (a1 & a2 & a3 & t1 & t2 & t3 & H1 & T1 & -> & _).
    unfold kickoff_crew. cbn [validation_only dict_get String.eqb truthy].
    replace (String.eqb "validation_only" "validation_only") with true
      by (symmetry; apply String.eqb_refl).
    cbn [truthy]. rewrite H1, T1. cbn [cbind].
    eexists. repeat split. discriminate.
Qed.

Lemma dashboard_validation_runs_full_crew_witness :
  exists full,
    crew DemoCrew.globals DemoCrew.self = inr full /\
    run_crew (DemoCrew.host None) full true
      = ([EvKickoff full [("validation_only", PyBool true)]],
         Some [Some "output"]) /\
    length (tasks full) = 3%nat.
Proof.
  destruct (crew DemoCrew.globals DemoCrew.self) as [e|full] eqn:Hc;
    [discriminate Hc|].
  destruct (dashboard_validation_runs_full_crew
              _ (DemoCrew.host None) DemoCrew.globals DemoCrew.self full Hc)
    as (_ & Hlen & _).
  exists full. split; [reflexivity|]. split; [|exact Hlen].
  inversion Hc; subst full. reflexivity.
Defined.

End CrewFacts.

(** ** Uploaded files and the tool *)

Module UploadFacts.

Import PDFQATool Spec App.
Local Open Scope list_scope.

Lemma has_false_rfind c s : Py.has c s = false -> Py.rfind c s = -1.
Proof.
  induction s as [|a s IH]; [reflexivity|].
  cbn [Py.has]. intros H. apply orb_false_iff in H as [Ha Hs].
  rewrite PyFacts.rfind_cons, (IH Hs), Ha. reflexivity.
Qed.

Lemma has_true_rfind c s : Py.has c s = true -> 0 <= Py.rfind c s.
Proof.
  intros H. destruct (Z_lt_le_dec (Py.rfind c s) 0) as [Hlt|Hge]; [|exact Hge].
  rewrite (Robustness.rfind_none_has _ _ Hlt) in H. discriminate.
Qed.

Lemma has_app c s1 s2 :
  Py.has c (s1 ++ s2)%string = Py.has c s1 || Py.has c s2.
Proof.
  induction s1 as [|a s1 IH]; [reflexivity|].
  cbn [append Py.has]. now rewrite IH, orb_assoc.
Qed.

Lemma forallb_has p c s :
  Py.forallb p s = true -> p c = false -> Py.has c s = false.
Proof.
  intros Hall Hc. induction s as [|a s IH]; [reflexivity|].
  cbn [Py.forallb Py.has] in *. apply andb_true_iff in Hall as [Ha Hs].
  rewrite (IH Hs), orb_false_r.
  destruct (Ascii.eqb a c) eqn:E; [|reflexivity].
  apply Ascii.eqb_eq in E. subst a. now rewrite Hc in Ha.
Qed.

(** A time stamp holds neither ['/'] nor ['.'], and does not start with
    either. *)
Lemma timestamp_like_inv ts :
  timestamp_like ts = true ->
  Py.has "/" ts = false /\ Py.has "." ts = false /\
  exists a ts', ts = String a ts' /\
                Ascii.eqb a "/" = false /\ Ascii.eqb a "." = false.
Proof.
  unfold timestamp_like. intros H. apply andb_true_iff in H as [Hne Hall].
  assert (H1 : Py.has "/" ts = false) by (apply (forallb_has _ _ _ Hall); reflexivity).
  assert (H2 : Py.has "." ts = false) by (apply (forallb_has _ _ _ Hall); reflexivity).
  repeat split; auto.
  destruct ts as [|a ts']; [discriminate|].
  exists a, ts'. cbn [Py.has] in H1, H2.
  apply orb_false_iff in H1 as [H1 _]. apply orb_false_iff in H2 as [H2 _].
  auto.
Qed.

Lemma file_path_spelled ts file_name :
  timestamp_like ts = true ->
  file_path ts file_name = ("./documents/" ++ ts ++ "_" ++ file_name)%string.
Proof.
  intros H. destruct (timestamp_like_inv _ H) as (_ & _ & a & ts' & -> & Ha & _).
  unfold file_path, join, unique_filename.
  cbn [append UrlParse.starts_with]. now rewrite Ha.
Qed.

(** A path that starts with ["./"] has no scheme and no network location:
    [urlparse] accepts it and the tool takes it for a local file. *)
Lemma urlparse_dot_slash host_err rest :
  exists parsed,
    UrlParse.urlparse host_err (String "." (String "/" rest)) = inr parsed /\
    UrlParse.scheme parsed = EmptyString.
Proof.
  unfold UrlParse.urlparse, UrlParse.urlsplit.
  change (Py.lstrip UrlParse.c0_control_or_space (String "." (String "/" rest)))
    with (String "." (String "/" rest)).
  change (UrlParse.remove_unsafe (String "." (String "/" rest)))
    with (String "." (String "/" (UrlParse.remove_unsafe rest))).
  set (url := String "." (String "/" (UrlParse.remove_unsafe rest))).
  assert (Hs : UrlParse.split_scheme url = (EmptyString, url)).
  { unfold UrlParse.split_scheme.
    change (UrlParse.first_is_ascii_alpha url) with false.
    now rewrite andb_false_r. }
  rewrite Hs.
  assert (Hn : UrlParse.split_netloc host_err url = inr (EmptyString, url))
    by reflexivity.
  rewrite Hn. cbn [rbind].
  destruct (if Py.contains "#" url then _ else _) as [u1 frag].
  destruct (if Py.contains "?" u1 then _ else _) as [u2 qry].
  cbn [rbind ok].
  destruct (if _ && _ then _ else _) as [u3 prm].
  eexists. split; reflexivity.
Qed.

(** The extension of a saved file is the text from the last dot of the
    uploaded name, the time stamp in front of it making no difference. *)
Lemma splitext_saved ts file_name :
  timestamp_like ts = true ->
  Py.has "/" file_name = false ->
  snd (OsPath.splitext ("./documents/" ++ ts ++ "_" ++ file_name)%string) =
  if Py.has "." file_name
  then Py.slice_from file_name (Py.rfind "." file_name)
  else EmptyString.
Proof.
  intros Hts Hname.
  destruct (timestamp_like_inv _ Hts) as (Hs & Hd & a & ts' & Ea & _ & Hadot).
  set (b := (ts ++ "_" ++ file_name)%string).
  assert (Hb : Py.has "/" b = false).
  { unfold b. rewrite !has_app, Hs, Hname. reflexivity. }
  assert (Hbase : OsPath.basename ("./documents/" ++ b)%string = b).
  { unfold OsPath.basename.
    rewrite PyFacts.rfind_app, (has_false_rfind _ _ Hb).
    change (if -1 <? 0 then Py.rfind "/" "./documents/"
            else Py.len "./documents/" + -1) with 11.
    unfold Py.slice_from.
    change (Z.to_nat (11 + 1)) with (String.length "./documents/").
    apply PyFacts.drop_app_length. }
  rewrite OsPathFacts.splitext_basename, Hbase.
  unfold OsPath.splitext. rewrite (has_false_rfind _ _ Hb).
  assert (Hdot : Py.rfind "." b =
                 if Py.has "." file_name
                 then Py.len ts + (1 + Py.rfind "." file_name) else -1).
  { unfold b. rewrite PyFacts.rfind_app.
    change ("_" ++ file_name)%string with (String "_" file_name).
    rewrite PyFacts.rfind_cons.
    destruct (Py.has "." file_name) eqn:E.
    - pose proof (has_true_rfind _ _ E) as Hk.
      replace (Py.rfind "." file_name <? 0) with false
        by (symmetry; apply Z.ltb_ge; lia).
      replace (1 + Py.rfind "." file_name <? 0) with false
        by (symmetry; apply Z.ltb_ge; lia).
      reflexivity.
    - rewrite (has_false_rfind _ _ E). cbn [Z.ltb Z.compare Ascii.eqb].
      change (Ascii.eqb "_" ".") with false. cbn.
      apply (has_false_rfind _ _ Hd). }
  rewrite Hdot. destruct (Py.has "." file_name) eqn:E; [|reflexivity].
  pose proof (has_true_rfind _ _ E) as Hk.
  set (k := Py.rfind "." file_name) in *.
  assert (Hlen : 1 <= Py.len ts)
    by (rewrite Ea; unfold Py.len; cbn [String.length]; lia).
  replace (-1 <? Py.len ts + (1 + k)) with true
    by (symmetry; apply Z.ltb_lt; lia).
  destruct (Z.to_nat (Py.len ts + (1 + k) - (-1 + 1))) as [|fuel] eqn:Ef; [lia|].
  cbn [OsPath._splitext_loop].
  replace (-1 + 1 <? Py.len ts + (1 + k)) with true
    by (symmetry; apply Z.ltb_lt; lia).
  assert (Hfirst : Py.slice b (-1 + 1) (-1 + 1 + 1) = String a EmptyString).
  { unfold b. rewrite Ea. reflexivity. }
  rewrite Hfirst. cbn [String.eqb]. rewrite Hadot. cbn [negb snd].
  unfold Py.slice_from, b.
  replace (Z.to_nat (Py.len ts + (1 + k)))
    with (String.length (ts ++ "_") + Z.to_nat k)%nat.
  - rewrite <- PyFacts.drop_drop.
    replace (ts ++ "_" ++ file_name)%string
      with ((ts ++ "_") ++ file_name)%string
      by (clear; induction ts; cbn; [reflexivity | now f_equal]).
    now rewrite PyFacts.drop_app_length.
  - unfold Py.len.
    replace (String.length (ts ++ "_")) with (S (String.length ts))
      by (clear; induction ts; cbn; [reflexivity | now f_equal]).
    lia.
Qed.

(** What the tool makes of one saved file. *)
Lemma saved_file_accepted w ts file_name :
  timestamp_like ts = true ->
  Py.contains "/" file_name = false ->
  let path := file_path ts file_name in
  path = ("./documents/" ++ unique_filename ts file_name)%string /\
  is_local w path = true /\
  exists parsed,
    urlparse w path = inr parsed /\
    extension parsed path =
      if Py.contains "." file_name
      then Py.lower (Py.slice_from file_name (Py.rfind "." file_name))
      else EmptyString.
Proof.
  intros Hts Hname path.
  assert (Hpath : path = ("./documents/" ++ ts ++ "_" ++ file_name)%string)
    by (apply file_path_spelled; exact Hts).
  rewrite PyFacts.contains_has in Hname.
  destruct (urlparse_dot_slash (bracketed_host_error w)
              ("documents/" ++ ts ++ "_" ++ file_name)%string)
    as (parsed & Hp & Hs).
  change (String "." (String "/" ("documents/" ++ ts ++ "_" ++ file_name)))
    with ("./documents/" ++ ts ++ "_" ++ file_name)%string in Hp.
  rewrite <- Hpath in Hp. fold (urlparse w path) in Hp.
  assert (Hu : is_url parsed = false) by (unfold is_url; now rewrite Hs).
  split; [exact Hpath|]. split.
  - unfold is_local. now rewrite Hp, Hu.
  - exists parsed. split; [exact Hp|].
    unfold extension, ext_source. rewrite Hu, Hpath.
    rewrite (splitext_saved _ _ Hts Hname), PyFacts.contains_has.
    now destruct (Py.has "." file_name).
Qed.

(** X13: the files the dashboard saves are files the tool can take.  When
    the loop over the uploads goes through, every file has been written
    once, in upload order, as [./documents/<time stamp>_<name>]; for a name
    without ['/'], the tool takes that path for a local file, and the
    extension it checks is the lowercased text from the last dot of the
    uploaded name (none when the name has no dot): the time stamp in front
    changes nothing to the type of the file. *)
Theorem saved_uploads_reach_the_tool w now write files : forall i evs file_paths,
  (forall k, timestamp_like (now k) = true) ->
  Forall (fun f => Py.contains "/" (name f) = false) files ->
  save_uploads now write i files = (evs, inr file_paths) ->
  Forall2
    (fun f saved =>
       exists ts,
         timestamp_like ts = true /\
         saved = (unique_filename ts (name f),
                  ("./documents/" ++ unique_filename ts (name f))%string,
                  size f) /\
         is_local w (snd (fst saved)) = true /\
         exists parsed,
           urlparse w (snd (fst saved)) = inr parsed /\
           extension parsed (snd (fst saved)) =
             if Py.contains "." (name f)
             then Py.lower (Py.slice_from (name f) (Py.rfind "." (name f)))
             else EmptyString)
    files file_paths /\
  evs = map (fun fs => EvWrite (snd (fst (snd fs))) (buffer (fst fs)))
            (combine files file_paths).
Proof.
  induction files as [|f files IH]; intros i evs file_paths Hnow Hnames Hrun.
  - cbn in Hrun. inversion Hrun; subst. split; constructor.
  - cbn [save_uploads] in Hrun.
    inversion Hnames as [|? ? Hf Hrest]; subst.
    destruct (write _ (buffer f)) as [e|]; [discriminate|].
    destruct (save_uploads now write (S i) files) as [evs' [e|paths']] eqn:Hrec;
      [discriminate|].
    inversion Hrun; subst; clear Hrun.
    destruct (IH _ _ _ Hnow Hrest Hrec) as [IH1 IH2].
    destruct (saved_file_accepted w (now i) (name f) (Hnow i) Hf)
      as (Hpath & Hloc & parsed & Hp & Hext).
    fold (file_path (now i) (name f)).
    split.
    + constructor; [|exact IH1].
      exists (now i). cbn [fst snd]. rewrite <- Hpath.
      repeat split; auto. exists parsed. auto.
    + cbn [combine map fst snd]. now rewrite IH2.
Qed.

Lemma saved_uploads_reach_the_tool_witness :
  save_uploads (fun _ => "20250101_120000") (fun _ _ => None) 0 [DemoCrew.scan]
    = ([EvWrite "./documents/20250101_120000_Pay Slip.March.PDF" Demo.pdf_bytes],
       inr [("20250101_120000_Pay Slip.March.PDF",
             "./documents/20250101_120000_Pay Slip.March.PDF", 4%nat)]) /\
  exists parsed,
    urlparse Demo.world "./documents/20250101_120000_Pay Slip.March.PDF"
      = inr parsed /\
    extension parsed "./documents/20250101_120000_Pay Slip.March.PDF" = ".pdf".
Proof.
  split; [reflexivity|].
  assert (Hnames : Forall (fun f => Py.contains "/" (name f) = false)
                          [DemoCrew.scan])
    by (constructor; [reflexivity | constructor]).
  destruct (saved_uploads_reach_the_tool
              Demo.world (fun _ => "20250101_120000") (fun _ _ => None)
              [DemoCrew.scan] 0 _ _
              (fun _ => eq_refl) Hnames eq_refl)
    as [Hall _].
  inversion Hall as [|f saved fs ss (ts & _ & _ & _ & parsed & Hp & Hext) _];
    subst.
  exists parsed. split; [exact Hp | exact Hext].
Defined.

End UploadFacts.
